(** * torch/onnx/_internal/torch_graph.py

    A shallow embedding of the Python helpers that build nodes of a
    [torch.Graph] and annotate them with typed attributes, together with
    the properties of attribute-key parsing, setter dispatch, argument
    wrapping and error behaviour.

    Strings are [string] (characters are 8-bit [ascii] codes, compared by
    code as Python compares code points).  Native calls on the graph
    ([g.create], [g.insertNode], [b.addNode], the attribute setters and the
    shape inference pass) are recorded as events of a trace; native
    operations on tensors are parameters of the development. *)

From Stdlib Require Import String Ascii List ZArith Lia Bool.
From Stdlib Require Import Permutation Sorted.
Import ListNotations.

Local Open Scope list_scope.

(** ** A backtracking matcher for the fragment of [re] used by the module *)

Module Re.

(** The pattern constructs that occur in [_ATTR_PATTERN]. *)
Inductive re : Type :=
| Bol                         (* ^ *)
| Eol                         (* $ *)
| Any                         (* . *)
| Chr (c : ascii)             (* a literal character *)
| Class (cs : list ascii)     (* [...] *)
| Seq (r1 r2 : re)
| Alt (r1 r2 : re)            (* r1|r2 *)
| Plus (r : re)               (* r+, greedy *)
| Group (n : nat) (r : re).   (* (r), capturing group number n *)

Definition newline : ascii := ascii_of_nat 10.

Definition is_newline (c : ascii) : bool := Ascii.eqb c newline.

(** Captures, most recent binding first. *)
Definition caps : Type := list (nat * list ascii).

Fixpoint group (n : nat) (cs : caps) : option (list ascii) :=
  match cs with
  | [] => None
  | (m, s) :: cs' => if Nat.eqb n m then Some s else group n cs'
  end.

(** [run r pre rest cs k]: match [r] at the position whose consumed
    input is [pre] (reversed) and whose remaining input is [rest], then
    continue with [k]; alternatives are tried in Python's order (left
    branch first, one more iteration of a greedy repetition first), and
    the first success is the answer.  Without flags, [.] matches any
    character except a newline, [^] matches at the start of the string
    and [$] at its end or just before a newline that ends it. *)
Definition cont : Type := list ascii -> list ascii -> caps -> option caps.

(** The greedy repetition of a matcher [m]: one more iteration is tried
    before the continuation.  An iteration that fails ends the loop, and
    [fuel] bounds the number of iterations. *)
Fixpoint plus_loop (m : list ascii -> list ascii -> caps -> cont ->
                        option caps)
    (k : cont) (fuel : nat) (pre rest : list ascii) (cs : caps)
    : option caps :=
  match fuel with
  | O => None
  | S fuel' =>
      m pre rest cs
        (fun pre' rest' cs' =>
           match plus_loop m k fuel' pre' rest' cs' with
           | Some x => Some x
           | None => k pre' rest' cs'
           end)
  end.

Fixpoint run (r : re) (pre rest : list ascii) (cs : caps) (k : cont)
    {struct r} : option caps :=
  match r with
  | Bol => match pre with [] => k pre rest cs | _ :: _ => None end
  | Eol =>
      match rest with
      | [] => k pre rest cs
      | [c] => if is_newline c then k pre rest cs else None
      | _ => None
      end
  | Any =>
      match rest with
      | c :: rest' => if is_newline c then None else k (c :: pre) rest' cs
      | [] => None
      end
  | Chr a =>
      match rest with
      | c :: rest' => if Ascii.eqb c a then k (c :: pre) rest' cs else None
      | [] => None
      end
  | Class l =>
      match rest with
      | c :: rest' =>
          if existsb (Ascii.eqb c) l then k (c :: pre) rest' cs else None
      | [] => None
      end
  | Seq r1 r2 =>
      run r1 pre rest cs (fun pre' rest' cs' => run r2 pre' rest' cs' k)
  | Alt r1 r2 =>
      match run r1 pre rest cs k with
      | Some x => Some x
      | None => run r2 pre rest cs k
      end
  | Plus r1 => plus_loop (run r1) k (S (length rest)) pre rest cs
  | Group n r1 =>
      run r1 pre rest cs
        (fun pre' rest' cs' =>
           k pre' rest'
             ((n, rev (firstn (length pre' - length pre) pre')) :: cs'))
  end.

(** [pattern.match(s)]: the match starts at the beginning of [s] and need
    not reach its end. *)
Definition match_ (r : re) (s : string) : option caps :=
  run r [] (list_ascii_of_string s) [] (fun _ _ cs => Some cs).

End Re.

(** [_ATTR_PATTERN = re.compile("^(.+)_(([ifstgz])|(ty))$")] *)
Definition _ATTR_PATTERN : Re.re :=
  Re.Seq Re.Bol
   (Re.Seq (Re.Group 1 (Re.Plus Re.Any))
    (Re.Seq (Re.Chr "_")
     (Re.Seq
        (Re.Group 2
           (Re.Alt (Re.Group 3 (Re.Class (list_ascii_of_string "ifstgz")))
                   (Re.Group 4 (Re.Seq (Re.Chr "t") (Re.Chr "y")))))
        Re.Eol))).

(** [m = _ATTR_PATTERN.match(key)] followed by
    [name, kind = m.group(1), m.group(2)]; [None] when [m is None]. *)
Definition attr_match (key : string) : option (string * string) :=
  match Re.match_ _ATTR_PATTERN key with
  | None => None
  | Some cs =>
      match Re.group 1 cs, Re.group 2 cs with
      | Some name, Some kind =>
          Some (string_of_list_ascii name, string_of_list_ascii kind)
      | _, _ => None
      end
  end.


(** ** Python values, globals and the native graph *)

(** A handle to a [torch.Tensor]; what the native side answers about it is
    a parameter of the model below. *)
Inductive tensor : Type := TensorRef (id : nat).

(** A handle to a [_C.Node]: its identity and the number of its outputs. *)
Record node : Type := mkNode { node_id : nat; node_outputs : nat }.

(** The Python values that the functions of the module receive. *)
#[warnings="-register-all"]
Inductive pyval : Type :=
| PNone
| PBool (b : bool)
| PInt (z : Z)
| PFloat (bits : Z)               (* a float, by its binary64 bit pattern *)
| PStr (s : string)
| PTensor (t : tensor)            (* torch.Tensor *)
| PValue (n : nat) (i : nat)      (* _C.Value: output [i] of node [n] *)
| PNode (n : node)                (* _C.Node *)
| PList (l : list pyval)
| PTuple (l : list pyval).

(** A [dict] with string keys, in insertion order; [**kwargs]. *)
Definition dict : Type := list (string * pyval).

(** [_C_onnx.OperatorExportTypes] *)
Inductive OperatorExportTypes : Type :=
| ONNX | ONNX_ATEN | ONNX_ATEN_FALLBACK | ONNX_FALLTHROUGH.

(** The globals the module reads: [GLOBALS], [_C_onnx._CAFFE2_ATEN_FALLBACK]
    and [torch.onnx.utils._params_dict]. *)
Record globals : Type := mkGlobals {
  onnx_shape_inference : bool;
  export_onnx_opset_version : Z;
  operator_export_type : OperatorExportTypes;
  _CAFFE2_ATEN_FALLBACK : bool;
  _params_dict : dict
}.

(** Native calls, as the trace records them. *)
Inductive event : Type :=
| Create (g : nat) (n : nat) (kind : string) (inputs : list pyval)
         (outputs : Z)                       (* g.create(kind, args, outputs) *)
| InsertNode (g : nat) (n : nat)             (* g.insertNode(node) *)
| AddNode (b : nat) (n : nat) (kind : string)
          (inputs : list pyval)              (* b.addNode(kind, args) *)
| SetAttr (n : nat) (setter : string) (name : string)
          (value : pyval)                    (* getattr(node, setter)(name, value) *)
| InferShape (n : nat) (params : dict)
             (opset : Z).  (* _jit_pass_onnx_node_shape_type_inference *)

(** The native side: the next free node identity and the calls made so
    far, oldest first. *)
Record state : Type := mkState { fresh : nat; trace : list event }.

(** The exceptions: those of the module's [raise] and [assert]
    statements, those that the interpreter raises while it runs the
    module's code ([ValueError] for an unpacking, [TypeError] for the
    binding of arguments), and the one for calls nested too deep. *)
Inductive exn : Type :=
| ValueError (msg : string)
| AssertionError
| TypeError (msg : string)
| RecursionError.

Inductive result (A : Type) : Type :=
| Ok (a : A)
| Raise (e : exn).

Arguments Ok {A} a.
Arguments Raise {A} e.

(** Computations that call into the native side and may raise; the state
    reached when an exception is raised is kept. *)
Definition M (A : Type) : Type := state -> state * result A.

Definition ret {A : Type} (a : A) : M A := fun s => (s, Ok a).

Definition raise {A : Type} (e : exn) : M A := fun s => (s, Raise e).

Definition bind {A B : Type} (c : M A) (k : A -> M B) : M B :=
  fun s =>
    match c s with
    | (s', Ok a) => k a s'
    | (s', Raise e) => (s', Raise e)
    end.

Notation "x <- c ;; k" := (bind c (fun x => k))
  (at level 61, c at next level, right associativity).
Notation "c ;;; k" := (bind c (fun _ => k))
  (at level 61, right associativity).

Definition emit (e : event) : M unit :=
  fun s => (mkState (fresh s) (trace s ++ [e]), Ok tt).

Definition new_node_id : M nat :=
  fun s => (mkState (S (fresh s)) (trace s), Ok (fresh s)).

(** [[f(x) for x in l]] for an [f] with effects. *)
Fixpoint mapM {A B : Type} (f : A -> M B) (l : list A) : M (list B) :=
  match l with
  | [] => ret []
  | x :: l' => y <- f x ;; ys <- mapM f l' ;; ret (y :: ys)
  end.

(** ** Python built-ins used by the module *)

Definition is_None (v : pyval) : bool :=
  match v with PNone => true | _ => false end.

(** [k in d] *)
Fixpoint dict_mem (k : string) (d : dict) : bool :=
  match d with
  | [] => false
  | (k', _) :: d' => if String.eqb k k' then true else dict_mem k d'
  end.

Fixpoint dict_get (k : string) (d : dict) : option pyval :=
  match d with
  | [] => None
  | (k', v) :: d' => if String.eqb k k' then Some v else dict_get k d'
  end.

Definition dict_del (k : string) (d : dict) : dict :=
  filter (fun kv => negb (String.eqb k (fst kv))) d.

(** [d.pop(k, default)]: the value and the dict that is left. *)
Definition dict_pop (k : string) (default : pyval) (d : dict)
  : pyval * dict :=
  match dict_get k d with
  | Some v => (v, dict_del k d)
  | None => (default, d)
  end.

(** [sorted(d.items())]: the keys of a dict are distinct, so the order of
    the pairs is the order of their keys, which Python compares character
    by character by code. *)
Fixpoint insert_item (kv : string * pyval) (l : dict) : dict :=
  match l with
  | [] => [kv]
  | kv' :: l' =>
      if String.leb (fst kv) (fst kv') then kv :: l
      else kv' :: insert_item kv l'
  end.

Fixpoint sorted_items (d : dict) : dict :=
  match d with
  | [] => []
  | kv :: d' => insert_item kv (sorted_items d')
  end.

(** ["::" in s] *)
Fixpoint contains_sep (s : string) : bool :=
  match s with
  | String ":" (String ":" _) => true
  | String _ s' => contains_sep s'
  | EmptyString => false
  end.

(** [s.split("::")]: [cur] is the part read since the last separator. *)
Fixpoint split_sep_from (cur : string) (s : string) : list string :=
  match s with
  | String ":" (String ":" s') => cur :: split_sep_from EmptyString s'
  | String c s' => split_sep_from (cur ++ String c EmptyString) s'
  | EmptyString => [cur]
  end.

Definition split_sep (s : string) : list string :=
  split_sep_from EmptyString s.

(** [s.lower()]: the codes of [A]-[Z] are lowered.  Python lowers other
    letters too, but none of them to an ASCII letter, so a comparison of
    the result with an ASCII word is not affected. *)
Definition lower_char (c : ascii) : ascii :=
  let n := nat_of_ascii c in
  if andb (Nat.leb 65 n) (Nat.leb n 90) then ascii_of_nat (n + 32) else c.

Fixpoint str_lower (s : string) : string :=
  match s with
  | EmptyString => EmptyString
  | String c s' => String (lower_char c) (str_lower s')
  end.

(** [bool(v)] for the built-in values; a tensor answers for itself. *)
Definition py_truth (tensor_truth : tensor -> bool) (v : pyval) : bool :=
  match v with
  | PNone => false
  | PBool b => b
  | PInt z => negb (Z.eqb z 0)
  | PFloat bits => negb (Z.eqb bits 0 || Z.eqb bits (2 ^ 63))
  | PStr s => negb (String.eqb s EmptyString)
  | PTensor t => tensor_truth t
  | PValue _ _ => true
  | PNode _ => true
  | PList l => negb (Nat.eqb (length l) 0)
  | PTuple l => negb (Nat.eqb (length l) 0)
  end.

(** [isinstance(v, numbers.Number)] *)
Definition is_Number (v : pyval) : bool :=
  match v with
  | PBool _ | PInt _ | PFloat _ => true
  | _ => false
  end.

(** [isinstance(v, float)] *)
Definition is_float (v : pyval) : bool :=
  match v with PFloat _ => true | _ => false end.

(** [isinstance(v, torch._six.string_classes)] *)
Definition is_string (v : pyval) : bool :=
  match v with PStr _ => true | _ => false end.

(** [isinstance(v, torch.Tensor)] *)
Definition is_Tensor (v : pyval) : bool :=
  match v with PTensor _ => true | _ => false end.

(** [isinstance(v, Iterable)]: strings, tensors, lists and tuples have
    [__iter__]. *)
Definition is_Iterable (v : pyval) : bool :=
  match v with
  | PStr _ | PTensor _ | PList _ | PTuple _ => true
  | _ => false
  end.

(** The messages of the module's [raise] statements. *)
Definition invalid_attribute_msg (key : string) : string :=
  ("Invalid attribute specifier '" ++ key ++
   "' names  must be suffixed with type, e.g. 'dim_i' or 'dims_i'")%string.

Definition tensor_attribute_msg : string :=
  "Should not pass tensor attribute"%string.

Definition unknown_type_msg : string :=
  ("Unknown type, type should be one of the following strings: " ++
   "char, short, int, long, half, float, double")%string.

(** The messages of exceptions that the interpreter raises in the
    module's code. *)
Definition unpack_msg : string := "too many values to unpack (expected 2)"%string.

Definition multiple_values_msg (k : string) : string :=
  ("got multiple values for argument '" ++ k ++ "'")%string.

Definition not_iterable_msg : string := "'int' object is not iterable"%string.

Definition not_an_int_msg : string := "outputs must be an int"%string.

(** [dims] of [graph_constant]: [None], an int or a list of ints. *)
Inductive dims_arg : Type :=
| DimsNone
| DimsInt (z : Z)
| DimsList (l : list Z).

(** ** The functions of the module *)

Section TorchGraph.

Set Default Proof Using "Type".

(** [GLOBALS] and the other globals; the module only reads them. *)
Variable GLOBALS : globals.

(** Native answers about tensors: [t.numel()], [t[0]], [bool(t)],
    the tensor constructors ([torch.CharTensor], ...) and [t.fill_(value)]. *)
Variable numel : tensor -> Z.
Variable getitem0 : tensor -> pyval.
Variable tensor_truth : tensor -> bool.
Variable new_tensor : string -> list Z -> tensor.
Variable fill_ : tensor -> pyval -> tensor.

(** The number of outputs of a node that [Block.addNode] creates. *)
Variable addNode_outputs : nat.

(** *** Native calls *)

(** [g.create(kind, args, outputs)] *)
Definition create (g : nat) (kind : string) (args : list pyval)
    (outputs : Z) : M node :=
  n <- new_node_id ;;
  emit (Create g n kind args outputs) ;;;
  ret (mkNode n (Z.to_nat outputs)).

(** [g.insertNode(node)] *)
Definition insertNode (g : nat) (n : node) : M node :=
  emit (InsertNode g (node_id n)) ;;; ret n.

(** [b.addNode(kind, args)] *)
Definition addNode (b : nat) (kind : string) (args : list pyval)
    : M node :=
  n <- new_node_id ;;
  emit (AddNode b n kind args) ;;;
  ret (mkNode n addNode_outputs).

(** [getattr(node, setter)(name, value)]; a setter returns its node. *)
Definition call_setter (n : node) (setter : string) (name : string)
    (value : pyval) : M pyval :=
  emit (SetAttr (node_id n) setter name value) ;;; ret (PNode n).

(** [_C._jit_pass_onnx_node_shape_type_inference(n, params, opset)] *)
Definition _jit_pass_onnx_node_shape_type_inference (n : node)
    (params : dict) (opset : Z) : M unit :=
  emit (InferShape (node_id n) params opset).

(** [n.outputs()] *)
Definition node_outputs_list (n : node) : list pyval :=
  map (PValue (node_id n)) (seq 0 (node_outputs n)).

(** [n.output()] *)
Definition node_output (n : node) : pyval := PValue (node_id n) 0.

(** *** [_is_onnx_list], [_scalar], [_is_caffe2_aten_fallback] *)

Definition _is_onnx_list (value : pyval) : bool :=
  negb (is_string value) && negb (is_Tensor value) && is_Iterable value.

Definition _scalar (x : tensor) : M pyval :=
  if Z.eqb (numel x) 1 then ret (getitem0 x) else raise AssertionError.

Definition _is_caffe2_aten_fallback : bool :=
  match operator_export_type GLOBALS with
  | ONNX_ATEN_FALLBACK => _CAFFE2_ATEN_FALLBACK GLOBALS
  | _ => false
  end.

(** *** [_add_attribute] *)

Definition _add_attribute (n : node) (key : string) (value : pyval)
    (aten : pyval) : M pyval :=
  match attr_match key with
  | None => raise (ValueError (invalid_attribute_msg key))
  | Some (name, kind) =>
      let kind := if _is_onnx_list value then (kind ++ "s")%string
                  else kind in
      vk <- (if py_truth tensor_truth aten && _is_caffe2_aten_fallback
             then
               match value with
               | PTensor t =>
                   if Z.gtb (numel t) 1
                   then raise (ValueError tensor_attribute_msg)
                   else
                     v <- _scalar t ;;
                     ret (v, if is_float v then "f"%string
                             else "i"%string)
               | _ => ret (value, kind)
               end
             else ret (value, kind)) ;;
      call_setter n (snd vk ++ "_")%string name (fst vk)
  end.

(** *** [_new_node] and [block_op] *)

(** [for k, v in items: if k == "inplace": continue;
     _add_attribute(node, k, v, aten=aten)] *)
Fixpoint add_attributes (n : node) (items : dict) (aten : pyval)
    : M unit :=
  match items with
  | [] => ret tt
  | (k, v) :: items' =>
      if String.eqb k "inplace" then add_attributes n items' aten
      else _add_attribute n k v aten ;;; add_attributes n items' aten
  end.

Definition _new_node (g : nat) (namespace op : string) (outputs : Z)
    (args : list pyval) (kwargs : dict) : M node :=
  let (aten, kwargs) := dict_pop "aten" (PBool false) kwargs in
  n <- create g (namespace ++ "::" ++ op)%string args outputs ;;
  add_attributes n (sorted_items kwargs) aten ;;;
  ret n.

Definition block_op (b : nat) (opname : string) (args : list pyval)
    (kwargs : dict) : M pyval :=
  let '(aten, ns_opname, kwargs) :=
    if contains_sep opname then (PBool false, opname, kwargs)
    else
      let (aten, kwargs) := dict_pop "aten" (PBool false) kwargs in
      let ns := if py_truth tensor_truth aten then "aten"%string
                else "onnx"%string in
      (aten, (ns ++ "::" ++ opname)%string, kwargs) in
  n <- addNode b ns_opname args ;;
  add_attributes n (sorted_items kwargs) aten ;;;
  let outputs := node_outputs_list n in
  if Nat.eqb (length outputs) 1 then ret (node_output n)
  else ret (PTuple outputs).

(** *** [graph_op] and [_const_if_tensor] *)

(** [namespace, op = opname.split("::")] *)
Definition unpack2 (parts : list string) : M (string * string) :=
  match parts with
  | [a; b] => ret (a, b)
  | _ => raise (ValueError unpack_msg)
  end.

(** Binding [**kwargs] in the call
    [_new_node(g, namespace, op, outputs, *args, **kwargs)]: a key that
    names one of the four positional parameters is refused. *)
Definition bind_new_node_kwargs (kwargs : dict) : M unit :=
  if dict_mem "g" kwargs then raise (TypeError (multiple_values_msg "g"))
  else if dict_mem "namespace" kwargs
  then raise (TypeError (multiple_values_msg "namespace"))
  else if dict_mem "op" kwargs
  then raise (TypeError (multiple_values_msg "op"))
  else if dict_mem "outputs" kwargs
  then raise (TypeError (multiple_values_msg "outputs"))
  else ret tt.

(** [_const_if_tensor], with the [graph_op] it calls as an argument. *)
Definition _const_if_tensor_with
    (graph_op : nat -> string -> list pyval -> Z -> dict -> M pyval)
    (g : nat) (arg : pyval) : M pyval :=
  match arg with
  | PNone => ret arg
  | PValue _ _ => ret arg
  | _ => graph_op g "Constant"%string [] 1%Z [("value_z"%string, arg)]
  end.

(** [graph_op] and [_const_if_tensor] call each other; [depth] bounds
    the depth of these calls, and [RecursionError] is raised beyond it. *)
Fixpoint graph_op_at (depth : nat) (g : nat) (opname : string)
    (raw_args : list pyval) (outputs : Z) (kwargs : dict) : M pyval :=
  match depth with
  | O => raise RecursionError
  | S depth' =>
      let kwargs := filter (fun kv => negb (is_None (snd kv))) kwargs in
      args <- mapM (_const_if_tensor_with (graph_op_at depth') g)
                   raw_args ;;
      ns_op <- (if contains_sep opname then unpack2 (split_sep opname)
                else ret ("onnx"%string, opname)) ;;
      bind_new_node_kwargs kwargs ;;;
      node <- _new_node g (fst ns_op) (snd ns_op) outputs args kwargs ;;
      n <- insertNode g node ;;
      (if onnx_shape_inference GLOBALS
       then _jit_pass_onnx_node_shape_type_inference n
              (_params_dict GLOBALS) (export_onnx_opset_version GLOBALS)
       else ret tt) ;;;
      if Z.eqb outputs 1 then ret (node_output n)
      else ret (PTuple (node_outputs_list n))
  end.

(** Two levels are all the calls ever nest: a constant is created with
    no positional argument. *)
Definition graph_op : nat -> string -> list pyval -> Z -> dict -> M pyval :=
  graph_op_at 2.

Definition _const_if_tensor (g : nat) (arg : pyval) : M pyval :=
  _const_if_tensor_with (graph_op_at 1) g arg.

(** *** [graph_constant] *)

(** Binding the keywords of the call
    [g.op("Constant", *args, <key>=tensor, **kwargs)] to the parameters
    of [graph_op], which is the [op] of a graph: a key given twice or
    naming a positional parameter is refused, and [outputs] binds the
    keyword-only parameter, which takes an int. *)
Definition bind_op_kwargs (key : string) (value : pyval) (kwargs : dict)
    : M (Z * dict) :=
  if dict_mem key kwargs then raise (TypeError (multiple_values_msg key))
  else if dict_mem "g" kwargs
  then raise (TypeError (multiple_values_msg "g"))
  else if dict_mem "opname" kwargs
  then raise (TypeError (multiple_values_msg "opname"))
  else
    match dict_get "outputs" kwargs with
    | None => ret (1%Z, (key, value) :: kwargs)
    | Some (PInt z) => ret (z, (key, value) :: dict_del "outputs" kwargs)
    | Some (PBool b) =>
        ret (Z.b2z b, (key, value) :: dict_del "outputs" kwargs)
    | Some _ => raise (TypeError not_an_int_msg)
    end.

(** [set(l) == {0}] *)
Definition set_is_zero (l : list Z) : bool :=
  negb (Nat.eqb (length l) 0) && forallb (Z.eqb 0) l.

Definition graph_constant (g : nat) (value : pyval) (dims : dims_arg)
    (type_ : option string) (args : list pyval) (kwargs : dict)
    : M pyval :=
  if negb (is_Number value) then raise AssertionError
  else
    match type_ with
    | None => raise AssertionError
    | Some type_ =>
        di <- (match dims with
               | DimsNone => ret ([1%Z], true)
               | DimsInt z =>
                   if Z.eqb z 0 then ret ([1%Z], true)
                   else raise (TypeError not_iterable_msg)
               | DimsList l =>
                   if set_is_zero l then ret ([1%Z], true)
                   else ret (l, false)
               end) ;;
        let dims := fst di in
        let isscalar := snd di in
        let type_ := str_lower type_ in
        tensor <-
          (if String.eqb type_ "char"
           then ret (new_tensor "CharTensor" dims)
           else if String.eqb type_ "short"
           then ret (new_tensor "ShortTensor" dims)
           else if String.eqb type_ "int"
           then ret (new_tensor "IntTensor" dims)
           else if String.eqb type_ "long"
           then ret (new_tensor "LongTensor" dims)
           else if String.eqb type_ "half"
           then ret (new_tensor "HalfTensor" dims)
           else if String.eqb type_ "float"
           then ret (new_tensor "FloatTensor" dims)
           else if String.eqb type_ "double"
           then ret (new_tensor "DoubleTensor" dims)
           else raise (ValueError unknown_type_msg)) ;;
        let tensor := fill_ tensor value in
        ok <- bind_op_kwargs (if isscalar then "value_z" else "value_t")
                (PTensor tensor) kwargs ;;
        graph_op g "Constant" args (fst ok) (snd ok)
    end.

(** *** [GraphContext] *)

Record GraphContext : Type := mkGraphContext {
  graph : nat;
  opset : Z;
  original_node : node;
  onnx_block : nat;
  params_dict : dict
}.

(** [GraphContext.op] *)
Definition op (self : GraphContext) (opname : string)
    (raw_args : list pyval) (outputs : Z) (kwargs : dict) : M pyval :=
  graph_op (graph self) opname raw_args outputs kwargs.


(** *** [aten_op] and [GraphContext.at] *)

(** Binding the keywords of the call
    [graph_op(g, "aten::ATen", *args, operator_s=operator,
    overload_name_s=overload_name, **kwargs)]: a key given twice or naming
    a positional parameter is refused, and [outputs] binds the keyword-only
    parameter, which takes an int. *)
Definition bind_aten_kwargs (operator overload_name : string)
    (kwargs : dict) : M (Z * dict) :=
  if dict_mem "operator_s" kwargs
  then raise (TypeError (multiple_values_msg "operator_s"))
  else if dict_mem "overload_name_s" kwargs
  then raise (TypeError (multiple_values_msg "overload_name_s"))
  else if dict_mem "g" kwargs
  then raise (TypeError (multiple_values_msg "g"))
  else if dict_mem "opname" kwargs
  then raise (TypeError (multiple_values_msg "opname"))
  else
    let explicit := [("operator_s"%string, PStr operator);
                     ("overload_name_s"%string, PStr overload_name)] in
    match dict_get "outputs" kwargs with
    | None => ret (1%Z, explicit ++ kwargs)
    | Some (PInt z) => ret (z, explicit ++ dict_del "outputs" kwargs)
    | Some (PBool b) =>
        ret (Z.b2z b, explicit ++ dict_del "outputs" kwargs)
    | Some _ => raise (TypeError not_an_int_msg)
    end.

Definition aten_op (g : nat) (operator : string) (args : list pyval)
    (overload_name : string) (kwargs : dict) : M pyval :=
  ok <- bind_aten_kwargs operator overload_name kwargs ;;
  graph_op g "aten::ATen" args (fst ok) (snd ok).

(** [GraphContext.at]; [at] is a reserved word here. *)
Definition at_ (self : GraphContext) (operator : string)
    (args : list pyval) (overload_name : string) (kwargs : dict)
    : M pyval :=
  aten_op (graph self) operator args overload_name kwargs.

(** ** Definitions used in the statements and proofs *)

(** The seven type codes of [_ATTR_PATTERN]. *)
Definition type_codes : list string :=
  ["i"; "f"; "s"; "t"; "g"; "z"; "ty"]%string.

(** The string that holds a single newline. *)
Definition nl : string := String Re.newline EmptyString.

(** No character of [s] is a newline. *)
Fixpoint no_newline (s : string) : bool :=
  match s with
  | EmptyString => true
  | String c s' => negb (Re.is_newline c) && no_newline s'
  end.

(** The keys as the specification words them: a non-empty name, an
    underscore and one of the seven type codes. *)
Definition spec_key_form (key : string) : Prop :=
  exists name k : string,
    name <> EmptyString /\ In k type_codes /\ key = (name ++ "_" ++ k)%string.

(** [$]: at the end of the input, or before a newline that ends it. *)
Definition at_end (l : list ascii) : bool :=
  match l with
  | [] => true
  | [c] => Re.is_newline c
  | _ => false
  end.

(** What the pattern reads after the name: an underscore, a type code and
    the end; the one-letter codes are tried before [ty]. *)
Definition tail_kind (rest : list ascii) : option (list ascii) :=
  match rest with
  | u :: c :: tl =>
      if Ascii.eqb u "_" then
        if existsb (Ascii.eqb c) (list_ascii_of_string "ifstgz") && at_end tl
        then Some [c]
        else if Ascii.eqb c "t" then
          match tl with
          | y :: tl' =>
              if Ascii.eqb y "y" && at_end tl' then Some [c; y] else None
          | [] => None
          end
        else None
      else None
  | _ => None
  end.

(** The greedy search for the name, longest first: [pre] is the input read
    so far, reversed. *)
Fixpoint scan (pre rest : list ascii) : option (list ascii * list ascii) :=
  match rest with
  | [] => None
  | c :: rest' =>
      if Re.is_newline c then None
      else
        match scan (c :: pre) rest' with
        | Some r => Some r
        | None =>
            match tail_kind rest' with
            | Some k => Some (rev (c :: pre), k)
            | None => None
            end
        end
  end.

(** The same search as the matcher runs it, bounded by [fuel]. *)
Fixpoint scan_fuel (fuel : nat) (pre rest : list ascii)
  : option (list ascii * list ascii) :=
  match fuel with
  | O => None
  | S fuel' =>
      match rest with
      | [] => None
      | c :: rest' =>
          if Re.is_newline c then None
          else
            match scan_fuel fuel' (c :: pre) rest' with
            | Some r => Some r
            | None =>
                match tail_kind rest' with
                | Some k => Some (rev (c :: pre), k)
                | None => None
                end
            end
      end
  end.

(** Groups 1 and 2 of a match. *)
Definition groups12 (m : option Re.caps)
  : option (list ascii * list ascii) :=
  match m with
  | None => None
  | Some cs =>
      match Re.group 1 cs, Re.group 2 cs with
      | Some a, Some b => Some (a, b)
      | _, _ => None
      end
  end.

(** A match and a search result that say the same. *)
Definition agrees (m : option Re.caps)
    (r : option (list ascii * list ascii)) : Prop :=
  match m, r with
  | Some cs, Some p => groups12 (Some cs) = Some p
  | None, None => True
  | _, _ => False
  end.

(** The part of [_ATTR_PATTERN] that follows group 1. *)
Definition after_name : Re.re :=
  Re.Seq (Re.Chr "_")
    (Re.Seq
       (Re.Group 2
          (Re.Alt (Re.Group 3 (Re.Class (list_ascii_of_string "ifstgz")))
                  (Re.Group 4 (Re.Seq (Re.Chr "t") (Re.Chr "y")))))
       Re.Eol).

(** The type codes as lists of characters. *)
Definition type_codes_l : list (list ascii) :=
  map list_ascii_of_string type_codes.

(** The state after the native setter call [getattr(n, setter)(name, v)]. *)
Definition after_setter (s : state) (n : node) (setter name : string)
    (v : pyval) : state :=
  mkState (fresh s) (trace s ++ [SetAttr (node_id n) setter name v]).

(** The Caffe2 branch of [_add_attribute] is taken: [aten] is true, the
    export falls back to ATen for Caffe2, and the value is a tensor. *)
Definition caffe2_path (aten value : pyval) : bool :=
  py_truth tensor_truth aten && _is_caffe2_aten_fallback && is_Tensor value.

(** Natives for the closed examples: a tensor handle [TensorRef k] has [k]
    elements. *)
Definition ex_globals (infer fallback : bool) : globals :=
  mkGlobals infer 13
    (if fallback then ONNX_ATEN_FALLBACK else ONNX) fallback [].

Definition ex_numel (t : tensor) : Z :=
  match t with TensorRef k => Z.of_nat k end.

Definition ex_getitem0 (t : tensor) : pyval := PTensor t.

Definition ex_truth (t : tensor) : bool := true.

Definition ex_new_tensor (ctor : string) (dims : list Z) : tensor :=
  TensorRef (Z.to_nat (fold_right Z.mul 1%Z dims)).

Definition ex_fill (t : tensor) (v : pyval) : tensor := t.

Definition s0 : state := mkState 0 [].

(** The attribute loop without the test for [inplace]. *)
Fixpoint apply_all (n : node) (items : dict) (aten : pyval) : M unit :=
  match items with
  | [] => ret tt
  | (k, v) :: items' =>
      _add_attribute n k v aten ;;; apply_all n items' aten
  end.

(** The order of the items of a dict: by key. *)
Definition key_le (a b : string * pyval) : Prop :=
  String.leb (fst a) (fst b) = true.

(** What [block_op] returns for its node. *)
Definition block_result (n : node) : pyval :=
  if Nat.eqb (length (node_outputs_list n)) 1 then node_output n
  else PTuple (node_outputs_list n).

(** The inference pass on node [n], when the global flag asks for it. *)
Definition infer_events (n : nat) : list event :=
  if onnx_shape_inference GLOBALS
  then [InferShape n (_params_dict GLOBALS)
          (export_onnx_opset_version GLOBALS)]
  else [].

(** The native calls of [graph_op(g, "Constant", value_z=arg)] when [n] is
    the next free node. *)
Definition const_events (g n : nat) (arg : pyval) : list event :=
  [Create g n "onnx::Constant" [] 1;
   SetAttr n (if _is_onnx_list arg then "zs_" else "z_") "value" arg;
   InsertNode g n] ++ infer_events n.

(** The inputs that [graph_op] computes from its positional arguments, the
    native calls this takes and the next free node after them. *)
Fixpoint wrap_args (g next : nat) (raw : list pyval)
  : list pyval * list event * nat :=
  match raw with
  | [] => ([], [], next)
  | arg :: raw' =>
      match arg with
      | PNone | PValue _ _ =>
          let '(args, evs, next') := wrap_args g next raw' in
          (arg :: args, evs, next')
      | _ =>
          let '(args, evs, next') := wrap_args g (S next) raw' in
          (PValue next 0 :: args, const_events g next arg ++ evs, next')
      end
  end.

(** What [graph_op] returns for its node. *)
Definition op_result (outputs : Z) (n : node) : pyval :=
  if Z.eqb outputs 1 then node_output n else PTuple (node_outputs_list n).

(** The keyword arguments that are not [None]. *)
Definition not_None_items (kwargs : dict) : dict :=
  filter (fun kv => negb (is_None (snd kv))) kwargs.

(** [graph_op] once the inputs [args] are computed and the [None]
    attributes are dropped. *)
Definition graph_op_finish (g : nat) (opname : string) (outputs : Z)
    (args : list pyval) (kw : dict) (s1 : state) : state * result pyval :=
  match (if contains_sep opname then unpack2 (split_sep opname)
         else ret ("onnx"%string, opname)) s1 with
  | (_, Raise e) => (s1, Raise e)
  | (_, Ok ns_op) =>
      match bind_new_node_kwargs kw s1 with
      | (_, Raise e) => (s1, Raise e)
      | (_, Ok _) =>
          match _new_node g (fst ns_op) (snd ns_op) outputs args kw s1 with
          | (s2, Raise e) => (s2, Raise e)
          | (s2, Ok n) =>
              (mkState (fresh s2)
                 (trace s2 ++
                  InsertNode g (node_id n) :: infer_events (node_id n)),
               Ok (op_result outputs n))
          end
      end
  end.

(** When and with what [_add_attribute] raises for the attribute
    [key = value]: the key is not accepted, or the value is a tensor on
    the Caffe2 branch that has more than one element (the [raise]) or none
    (the [assert] of [_scalar]). *)
Definition attr_error (aten : pyval) (key : string) (value : pyval)
    (e : exn) : Prop :=
  (e = ValueError (invalid_attribute_msg key) /\ attr_match key = None) \/
  (exists t : tensor,
     value = PTensor t /\ caffe2_path aten value = true /\
     attr_match key <> None /\
     ((e = ValueError tensor_attribute_msg /\ (1 < numel t)%Z) \/
      (e = AssertionError /\ (numel t < 1)%Z))).

(** A call of a setter of node [n]. *)
Definition is_setter_of (n : nat) (e : event) : Prop :=
  exists setter name v, e = SetAttr n setter name v.

(** How [graph_op] turns a positional argument [a] into the input [b]:
    [None] and graph values are kept; anything else is the output of a
    [Constant] node that the calls [evs] create, set and insert. *)
Definition wrapped (g : nat) (evs : list event) (a b : pyval) : Prop :=
  match a with
  | PNone => b = PNone
  | PValue n i => b = PValue n i
  | _ =>
      exists m : nat,
        b = PValue m 0 /\
        In (Create g m "onnx::Constant" [] 1) evs /\
        In (SetAttr m (if _is_onnx_list a then "zs_" else "z_") "value" a)
           evs /\
        In (InsertNode g m) evs
  end.

(** The exceptions that the interpreter raises in [graph_op] before the
    node is created: the unpacking of [opname.split("::")] and the binding
    of the keyword arguments of [_new_node]. *)
Definition interpreter_error (opname : string) (kw : dict) (e : exn)
  : Prop :=
  (e = ValueError unpack_msg /\ contains_sep opname = true /\
   length (split_sep opname) <> 2) \/
  (exists k : string, e = TypeError (multiple_values_msg k) /\
                      dict_mem k kw = true).

(** [aten = kwargs.pop("aten", False)] *)
Definition popped_aten (kw : dict) : pyval :=
  fst (dict_pop "aten" (PBool false) kw).

(** Inference is run on the nodes inserted by the calls [evs], and on
    these only, exactly when the global flag is set. *)
Definition infer_ok (g : nat) (evs : list event) : Prop :=
  (forall m, In (InsertNode g m) evs ->
             onnx_shape_inference GLOBALS = true ->
             In (InferShape m (_params_dict GLOBALS)
                   (export_onnx_opset_version GLOBALS)) evs) /\
  (forall m p o, In (InferShape m p o) evs ->
                 onnx_shape_inference GLOBALS = true /\
                 In (InsertNode g m) evs).

(** The type specifiers that [graph_constant] knows. *)
Definition scalar_types : list string :=
  ["char"; "short"; "int"; "long"; "half"; "float"; "double"]%string.

(** ["::".join(parts)] *)
Fixpoint join_sep (parts : list string) : string :=
  match parts with
  | [] => EmptyString
  | a :: parts' =>
      match parts' with
      | [] => a
      | _ :: _ => (a ++ "::" ++ join_sep parts')%string
      end
  end.

(** The kind of the node that [graph_op] creates for [opname]. *)
Definition op_kind (opname : string) : string :=
  if contains_sep opname then opname else ("onnx::" ++ opname)%string.

(** The items that [_new_node] applies for the keyword arguments [kw], in
    the order in which it applies them. *)
Definition applied_items (kw : dict) : dict :=
  dict_del "inplace" (sorted_items (snd (dict_pop "aten" (PBool false) kw))).

(** The native call [e] that [_add_attribute(n, k, v, aten)] makes when it
    returns: on the Caffe2 branch the element of a one-element tensor goes
    to [f_] or [i_]; otherwise [v] goes to the setter of the parsed type
    code, plural for a list-like [v]. *)
Definition setter_call (aten : pyval) (n : nat) (k : string) (v : pyval)
    (e : event) : Prop :=
  exists name kind : string,
    attr_match k = Some (name, kind) /\
    if caffe2_path aten v then
      exists t : tensor,
        v = PTensor t /\ numel t = 1%Z /\
        e = SetAttr n (if is_float (getitem0 t) then "f_" else "i_")
              name (getitem0 t)
    else
      e = SetAttr n
            (if _is_onnx_list v then kind ++ "s_" else kind ++ "_")%string
            name v.

(** The attribute [k = v] is one that [_add_attribute] accepts: the key
    matches, and on the Caffe2 branch the tensor has one element. *)
Definition attr_ok (aten : pyval) (k : string) (v : pyval) : Prop :=
  attr_match k <> None /\
  (caffe2_path aten v = true -> exists t, v = PTensor t /\ numel t = 1%Z).

(** The fourteen setters: one and its plural for each type code. *)
Definition setter_names : list string :=
  map (fun k => (k ++ "_")%string) type_codes ++
  map (fun k => (k ++ "s_")%string) type_codes.

(** The plural type codes. *)
Definition plural_codes : list string :=
  map (fun k => (k ++ "s")%string) type_codes.

(** The node that an event is about. *)
Definition event_node (e : event) : nat :=
  match e with
  | Create _ n _ _ _ => n
  | InsertNode _ n => n
  | AddNode _ n _ _ => n
  | SetAttr n _ _ _ => n
  | InferShape n _ _ => n
  end.

(** The tensor constructor that [graph_constant] uses for a type name. *)
Definition tensor_ctor (type_ : string) : option string :=
  if String.eqb type_ "char" then Some "CharTensor"%string
  else if String.eqb type_ "short" then Some "ShortTensor"%string
  else if String.eqb type_ "int" then Some "IntTensor"%string
  else if String.eqb type_ "long" then Some "LongTensor"%string
  else if String.eqb type_ "half" then Some "HalfTensor"%string
  else if String.eqb type_ "float" then Some "FloatTensor"%string
  else if String.eqb type_ "double" then Some "DoubleTensor"%string
  else None.

(** [dims] asks for a scalar: [None], [0] or a non-empty list of zeros. *)
Definition scalar_dims (dims : dims_arg) : bool :=
  match dims with
  | DimsNone => true
  | DimsInt z => Z.eqb z 0
  | DimsList l => set_is_zero l
  end.

(** No keyword argument is named as a positional parameter of
    [_new_node]. *)
Definition no_reserved_key (kw : dict) : Prop :=
  dict_mem "g" kw = false /\ dict_mem "namespace" kw = false /\
  dict_mem "op" kw = false /\ dict_mem "outputs" kw = false.

(** A positional argument that [_const_if_tensor] wraps. *)
Definition needs_const (a : pyval) : bool :=
  match a with
  | PNone | PValue _ _ => false
  | _ => true
  end.

(** [None] or a graph value. *)
Definition is_input (a : pyval) : Prop :=
  a = PNone \/ exists n i, a = PValue n i.

(** What [block_op] does with its keyword arguments: [aten] is popped only
    for an operator name without ["::"]. *)
Definition block_aten (opname : string) (kwargs : dict) : pyval :=
  if contains_sep opname then PBool false else popped_aten kwargs.

Definition block_items (opname : string) (kwargs : dict) : dict :=
  dict_del "inplace"
    (sorted_items
       (if contains_sep opname then kwargs
        else snd (dict_pop "aten" (PBool false) kwargs))).

Definition block_kind (opname : string) (kwargs : dict) : string :=
  if contains_sep opname then opname
  else ((if py_truth tensor_truth (popped_aten kwargs) then "aten"
         else "onnx") ++ "::" ++ opname)%string.

(** The dimensions of the tensor that [graph_constant] creates. *)
Definition const_dims (dims : dims_arg) : list Z :=
  match dims with
  | DimsList l => if set_is_zero l then [1%Z] else l
  | _ => [1%Z]
  end.

(** [dims] is an int other than 0. *)
Definition bad_dims (dims : dims_arg) : bool :=
  match dims with
  | DimsInt z => negb (Z.eqb z 0)
  | _ => false
  end.

(** * Properties *)

(** ** The attribute pattern *)

Lemma firstn_length_cons1 (A : Type) (c : A) (p : list A) :
  firstn (length (c :: p) - length p) (c :: p) = [c].
Proof.
  replace (length (c :: p) - length p) with 1 by (cbn [length]; lia).
  reflexivity.
Qed.

Lemma firstn_length_cons2 (A : Type) (c d : A) (p : list A) :
  firstn (length (c :: d :: p) - length p) (c :: d :: p) = [c; d].
Proof.
  replace (length (c :: d :: p) - length p) with 2 by (cbn [length]; lia).
  reflexivity.
Qed.

Lemma after_name_run (name : list ascii) (pre rest : list ascii) :
  agrees (Re.run after_name pre rest [(1, name)] (fun _ _ cs => Some cs))
    (match tail_kind rest with
     | Some k => Some (name, k)
     | None => None
     end).
Proof.
  destruct rest as [|u [|c tl]]; try exact I.
  - simpl. destruct (Ascii.eqb u "_"); exact I.
  - cbn [after_name Re.run tail_kind].
    destruct (Ascii.eqb u "_"); [|exact I].
    unfold at_end.
    destruct tl as [|y [|z [|w tl]]];
      rewrite ?firstn_length_cons1, ?firstn_length_cons2;
      destruct (existsb (Ascii.eqb c) (list_ascii_of_string "ifstgz"));
      destruct (Ascii.eqb c "t");
      cbn [andb agrees groups12 Re.group Nat.eqb rev app];
      repeat match goal with
        | |- context [if ?b then _ else _] =>
            destruct b; cbn [andb agrees groups12 Re.group Nat.eqb rev app]
        end; (reflexivity || exact I).
Qed.

Lemma agrees_inv (m : option Re.caps) (r : option (list ascii * list ascii)) :
  agrees m r -> groups12 m = r.
Proof.
  destruct m, r; simpl; intros H; try contradiction; auto.
Qed.

Lemma plus_any_scan (fuel : nat) (pre rest : list ascii) :
  agrees
    (Re.plus_loop (Re.run Re.Any)
       (fun pre' rest' cs' =>
          Re.run after_name pre' rest'
            ((1, rev (firstn (length pre' - 0) pre')) :: cs')
            (fun _ _ cs => Some cs))
       fuel pre rest [])
    (scan_fuel fuel pre rest).
Proof.
  revert pre rest. induction fuel as [|fuel IH]; intros pre rest.
  - exact I.
  - cbn [Re.plus_loop scan_fuel Re.run].
    destruct rest as [|c rest']; [exact I|].
    destruct (Re.is_newline c); [exact I|].
    specialize (IH (c :: pre) rest').
    destruct (Re.plus_loop _ _ fuel (c :: pre) rest' []) as [cs|];
      destruct (scan_fuel fuel (c :: pre) rest') as [p|];
      try contradiction; try exact IH.
    rewrite Nat.sub_0_r, firstn_all.
    apply after_name_run.
Qed.

Lemma scan_fuel_scan (fuel : nat) (pre rest : list ascii) :
  length rest < fuel -> scan_fuel fuel pre rest = scan pre rest.
Proof.
  revert pre rest. induction fuel as [|fuel IH]; intros pre rest H; [lia|].
  destruct rest as [|c rest']; [reflexivity|].
  cbn [scan_fuel scan]. rewrite IH by (simpl in H; lia). reflexivity.
Qed.

Lemma attr_match_scan (key : string) :
  attr_match key =
  match scan [] (list_ascii_of_string key) with
  | Some (name, kind) =>
      Some (string_of_list_ascii name, string_of_list_ascii kind)
  | None => None
  end.
Proof.
  unfold attr_match.
  rewrite <- (scan_fuel_scan (S (length (list_ascii_of_string key)))) by lia.
  rewrite <- (agrees_inv _ _
                (plus_any_scan (S (length (list_ascii_of_string key))) []
                   (list_ascii_of_string key))).
  unfold Re.match_, _ATTR_PATTERN, groups12.
  cbn [Re.run length]. fold after_name.
  destruct (Re.plus_loop _ _ _ _ _ _) as [cs|]; [|reflexivity].
  destruct (Re.group 1 cs), (Re.group 2 cs); reflexivity.
Qed.

Lemma tail_kind_sound (rest k : list ascii) :
  tail_kind rest = Some k ->
  In k type_codes_l /\
  (rest = "_"%char :: k \/ rest = "_"%char :: k ++ [Re.newline]).
Proof.
  unfold tail_kind.
  destruct rest as [|u [|c tl]]; try discriminate.
  destruct (Ascii.eqb_spec u "_"); [subst u|discriminate].
  destruct (existsb (Ascii.eqb c) (list_ascii_of_string "ifstgz")
            && at_end tl) eqn:E.
  - intros H; inversion H; subst k; clear H.
    apply andb_prop in E. destruct E as [Ec Et].
    split.
    + apply existsb_exists in Ec. destruct Ec as [x [Hx Hc]].
      apply Ascii.eqb_eq in Hc. subst x.
      simpl in Hx. unfold type_codes_l. simpl.
      intuition (subst; auto 10).
    + destruct tl as [|n [|? ?]]; try discriminate; [now left|].
      right. simpl in Et. apply Ascii.eqb_eq in Et. now subst n.
  - destruct (Ascii.eqb_spec c "t"); [subst c|discriminate].
    destruct tl as [|y tl']; [discriminate|].
    destruct (Ascii.eqb y "y" && at_end tl') eqn:E2; [|discriminate].
    intros H; inversion H; subst k; clear H.
    apply andb_prop in E2. destruct E2 as [Ey Et].
    apply Ascii.eqb_eq in Ey. subst y.
    split.
    + unfold type_codes_l. simpl. auto 10.
    + destruct tl' as [|n [|? ?]]; try discriminate; [now left|].
      right. simpl in Et. apply Ascii.eqb_eq in Et. now subst n.
Qed.

Lemma tail_kind_complete (k : list ascii) :
  In k type_codes_l ->
  tail_kind ("_"%char :: k) = Some k /\
  tail_kind ("_"%char :: k ++ [Re.newline]) = Some k.
Proof.
  unfold type_codes_l. simpl.
  intros H; repeat (destruct H as [H|H]; [subst k; split; reflexivity|]).
  contradiction.
Qed.

(** No longer name can be read from an input that ends where a type code
    does. *)
Lemma scan_tail_none (pre tail k : list ascii) :
  tail_kind tail = Some k -> scan pre tail = None.
Proof.
  intros H. apply tail_kind_sound in H. destruct H as [Hk Ht].
  unfold type_codes_l in Hk. simpl in Hk.
  repeat (destruct Hk as [Hk|Hk];
          [subst k; destruct Ht; subst tail; reflexivity|]).
  contradiction.
Qed.

Lemma scan_complete (name tail k : list ascii) :
  name <> [] ->
  forallb (fun c => negb (Re.is_newline c)) name = true ->
  tail_kind tail = Some k ->
  forall pre, scan pre (name ++ tail) = Some (rev pre ++ name, k).
Proof.
  intros Hne Hnl Hk.
  induction name as [|c name IH]; [congruence|].
  intros pre. simpl in Hnl. apply andb_prop in Hnl. destruct Hnl as [Hc Hnl].
  cbn [app scan]. apply negb_true_iff in Hc. rewrite Hc.
  destruct name as [|d name].
  - cbn [app]. rewrite (scan_tail_none _ _ _ Hk), Hk. reflexivity.
  - rewrite IH by (auto; discriminate).
    cbn [rev]. rewrite <- app_assoc. reflexivity.
Qed.

Lemma scan_sound (rest : list ascii) :
  forall pre n k,
    scan pre rest = Some (n, k) ->
    exists name tail,
      name <> [] /\ n = rev pre ++ name /\
      forallb (fun c => negb (Re.is_newline c)) name = true /\
      tail_kind tail = Some k /\ rest = name ++ tail.
Proof.
  induction rest as [|c rest IH]; intros pre n k H; [discriminate|].
  cbn [scan] in H.
  destruct (Re.is_newline c) eqn:Hc; [discriminate|].
  destruct (scan (c :: pre) rest) as [[n' k']|] eqn:E.
  - inversion H; subst n' k'; clear H.
    destruct (IH _ _ _ E) as (name & tail & Hne & Hn & Hnl & Hk & Hr).
    exists (c :: name), tail. repeat split; auto.
    + discriminate.
    + rewrite Hn. cbn [rev]. rewrite <- app_assoc. reflexivity.
    + cbn [forallb]. rewrite Hc. exact Hnl.
    + rewrite Hr. reflexivity.
  - destruct (tail_kind rest) as [k'|] eqn:Ek; [|discriminate].
    inversion H; subst n k'; clear H.
    exists [c], rest. repeat split; auto.
    + discriminate.
    + cbn [forallb]. rewrite Hc. reflexivity.
Qed.

(** *** From lists of characters to strings *)

Lemma list_ascii_of_string_app (a b : string) :
  list_ascii_of_string (a ++ b) =
  list_ascii_of_string a ++ list_ascii_of_string b.
Proof. induction a as [|c a IH]; simpl; [reflexivity|now rewrite IH]. Qed.

Lemma string_of_list_ascii_app (a b : list ascii) :
  string_of_list_ascii (a ++ b) =
  (string_of_list_ascii a ++ string_of_list_ascii b)%string.
Proof. induction a as [|c a IH]; simpl; [reflexivity|now rewrite IH]. Qed.

Lemma no_newline_forallb (s : string) :
  no_newline s =
  forallb (fun c => negb (Re.is_newline c)) (list_ascii_of_string s).
Proof. induction s as [|c s IH]; simpl; [reflexivity|now rewrite IH]. Qed.

Lemma in_type_codes_l (k : string) :
  In k type_codes -> In (list_ascii_of_string k) type_codes_l.
Proof. apply in_map. Qed.

Lemma in_type_codes (k : list ascii) :
  In k type_codes_l -> In (string_of_list_ascii k) type_codes.
Proof.
  unfold type_codes_l. intros H. apply in_map_iff in H.
  destruct H as [x [Hx Hin]]. subst k.
  now rewrite string_of_list_ascii_of_string.
Qed.

(** The keys that [_ATTR_PATTERN] matches, and the groups it yields. *)
Lemma attr_match_iff (key name kind : string) :
  attr_match key = Some (name, kind) <->
  name <> EmptyString /\ no_newline name = true /\ In kind type_codes /\
  (key = (name ++ "_" ++ kind)%string \/
   key = (name ++ "_" ++ kind ++ nl)%string).
Proof.
  rewrite attr_match_scan. split.
  - destruct (scan [] (list_ascii_of_string key)) as [[n k]|] eqn:E;
      [|discriminate].
    intros H; inversion H; subst name kind; clear H.
    apply scan_sound in E.
    destruct E as (nm & tail & Hne & Hn & Hnl & Hk & Hr).
    cbn [rev app] in Hn. subst n.
    apply tail_kind_sound in Hk. destruct Hk as [Hin Ht].
    split; [|split; [|split]].
    + destruct nm; [congruence|discriminate].
    + rewrite no_newline_forallb, list_ascii_of_string_of_list_ascii.
      exact Hnl.
    + now apply in_type_codes.
    + assert (Hkey : key = string_of_list_ascii (nm ++ tail)).
      { rewrite <- Hr. now rewrite string_of_list_ascii_of_string. }
      destruct Ht as [Ht|Ht]; [left|right]; subst tail; rewrite Hkey;
        rewrite string_of_list_ascii_app; cbn [string_of_list_ascii];
        rewrite ?string_of_list_ascii_app; reflexivity.
  - intros (Hne & Hnl & Hin & Hkey).
    apply in_type_codes_l in Hin.
    destruct (tail_kind_complete _ Hin) as [T1 T2].
    assert (Hne' : list_ascii_of_string name <> []).
    { destruct name; [congruence|discriminate]. }
    rewrite no_newline_forallb in Hnl.
    destruct Hkey as [Hkey|Hkey]; subst key;
      rewrite list_ascii_of_string_app; cbn [list_ascii_of_string append];
      rewrite ?list_ascii_of_string_app; cbn [list_ascii_of_string nl].
    + rewrite (scan_complete _ _ _ Hne' Hnl T1). cbn [rev app].
      now rewrite !string_of_list_ascii_of_string.
    + rewrite (scan_complete _ _ _ Hne' Hnl T2). cbn [rev app].
      now rewrite !string_of_list_ascii_of_string.
Qed.

(** ** Setter dispatch in [_add_attribute] *)

Lemma append_assoc (a b c : string) :
  ((a ++ b) ++ c = a ++ (b ++ c))%string.
Proof. induction a as [|x a IH]; simpl; [reflexivity|now rewrite IH]. Qed.

Lemma bind_run {A B : Type} (c : M A) (k : A -> M B) (s : state) :
  bind c k s =
  match c s with
  | (s', Ok a) => k a s'
  | (s', Raise e) => (s', Raise e)
  end.
Proof. reflexivity. Qed.

Lemma call_setter_run (n : node) (setter name : string) (v : pyval)
    (s : state) :
  call_setter n setter name v s = (after_setter s n setter name v, Ok (PNode n)).
Proof. reflexivity. Qed.

(** Off the Caffe2 branch the setter is named by the parsed type code, in
    its plural form for a list-like value. *)
Lemma add_attribute_off_caffe2 (n : node) (key name kind : string)
    (value aten : pyval) (s : state) :
  attr_match key = Some (name, kind) ->
  caffe2_path aten value = false ->
  _add_attribute n key value aten s =
  (after_setter s n
     ((if _is_onnx_list value then kind ++ "s" else kind) ++ "_")%string
     name value,
   Ok (PNode n)).
Proof.
  intros Hm Hc. unfold _add_attribute. rewrite Hm.
  unfold caffe2_path in Hc.
  destruct (py_truth tensor_truth aten && _is_caffe2_aten_fallback) eqn:E.
  - destruct value; try reflexivity. simpl in Hc. discriminate.
  - reflexivity.
Qed.

(** A list-like value is not a tensor, so the Caffe2 branch leaves it
    alone. *)
Lemma onnx_list_not_tensor (value : pyval) :
  _is_onnx_list value = true -> is_Tensor value = false.
Proof. destruct value; cbv; congruence. Qed.

Lemma onnx_list_iff (value : pyval) :
  _is_onnx_list value = true <->
  (exists l, value = PList l) \/ (exists l, value = PTuple l).
Proof.
  split.
  - destruct value; cbv; try discriminate; eauto.
  - intros [[l H]|[l H]]; subst; reflexivity.
Qed.

(** C1 (amended).  For a key that the pattern accepts with name [name] and
    type code [kind], and unless the value is a tensor given with [aten]
    set while the export falls back to ATen for Caffe2, [_add_attribute]
    calls on the node, with [name] and the unchanged value, the setter
    that the type code names: [kind_] ([i_], [f_], [s_], [t_], [z_], ...)
    for a value that is not list-like and the plural [kinds_] for a
    list-like one.  Nothing else is called and nothing is raised. *)
Theorem add_attribute_dispatch (n : node) (key name kind : string)
    (value aten : pyval) (s : state) :
  attr_match key = Some (name, kind) ->
  caffe2_path aten value = false ->
  _add_attribute n key value aten s =
  (after_setter s n
     (if _is_onnx_list value then kind ++ "s_" else kind ++ "_")%string
     name value,
   Ok (PNode n)).
Proof.
  intros Hm Hc.
  rewrite (add_attribute_off_caffe2 n key name kind value aten s Hm Hc).
  destruct (_is_onnx_list value); [|reflexivity].
  now rewrite append_assoc.
Qed.


(** C3 (amended).  For a key that the pattern accepts, a list-like value (a
    list or a tuple: an iterable that is neither a string nor a tensor)
    goes to the setter of the plural type code, whatever [aten] is; a
    value that is not list-like goes to the setter of the type code as it
    was parsed, unless it is a tensor on the Caffe2 branch. *)
Theorem add_attribute_plural (n : node) (key name kind : string)
    (value aten : pyval) (s : state) :
  attr_match key = Some (name, kind) ->
  (_is_onnx_list value = true ->
   _add_attribute n key value aten s =
   (after_setter s n (kind ++ "s_")%string name value, Ok (PNode n))) /\
  (_is_onnx_list value = false ->
   caffe2_path aten value = false ->
   _add_attribute n key value aten s =
   (after_setter s n (kind ++ "_")%string name value, Ok (PNode n))).
Proof.
  intros Hm. split.
  - intros Hl.
    assert (Hc : caffe2_path aten value = false).
    { unfold caffe2_path. rewrite (onnx_list_not_tensor _ Hl).
      apply andb_false_r. }
    rewrite (add_attribute_off_caffe2 n key name kind value aten s Hm Hc).
    rewrite Hl. now rewrite append_assoc.
  - intros Hl Hc.
    rewrite (add_attribute_off_caffe2 n key name kind value aten s Hm Hc).
    now rewrite Hl.
Qed.

(** C8 (amended).  [_ATTR_PATTERN] accepts exactly the keys [name_k] and
    [name_k] followed by one newline, where [name] is not empty and holds
    no newline and [k] is one of [i], [f], [s], [t], [g], [z], [ty]; the
    groups are [name] and [k].  So a key [name_g], [name_z] or [name_ty]
    is accepted, and its value, when it is not list-like and not a tensor
    on the Caffe2 branch, goes to [g_], [z_] or [ty_]. *)
Theorem attr_pattern_keys :
  (forall key name kind : string,
     attr_match key = Some (name, kind) <->
     name <> EmptyString /\ no_newline name = true /\ In kind type_codes /\
     (key = (name ++ "_" ++ kind)%string \/
      key = (name ++ "_" ++ kind ++ nl)%string)) /\
  (forall (name kind : string) (n : node) (value aten : pyval) (s : state),
     name <> EmptyString -> no_newline name = true ->
     In kind ["g"; "z"; "ty"]%string ->
     _is_onnx_list value = false -> caffe2_path aten value = false ->
     _add_attribute n (name ++ "_" ++ kind)%string value aten s =
     (after_setter s n (kind ++ "_")%string name value, Ok (PNode n))).
Proof.
  split; [exact attr_match_iff|].
  intros name kind n value aten s Hne Hnl Hk Hl Hc.
  assert (Hm : attr_match (name ++ "_" ++ kind)%string = Some (name, kind)).
  { apply attr_match_iff. repeat split; auto.
    unfold type_codes.
    destruct Hk as [Hk|[Hk|[Hk|[]]]]; subst kind; simpl; auto 10. }
  rewrite (add_attribute_off_caffe2 n _ name kind value aten s Hm Hc).
  now rewrite Hl.
Qed.

(** ** The order of keys and [sorted] *)

Lemma ascii_compare_refl (a : ascii) : Ascii.compare a a = Eq.
Proof. unfold Ascii.compare. apply N.compare_refl. Qed.

Lemma string_compare_refl (a : string) : String.compare a a = Eq.
Proof.
  induction a as [|x a IH]; simpl; [reflexivity|].
  now rewrite ascii_compare_refl.
Qed.

Lemma string_compare_not_gt_trans (a : string) :
  forall b c,
    String.compare a b <> Gt -> String.compare b c <> Gt ->
    String.compare a c <> Gt.
Proof.
  induction a as [|x a IH]; intros b c Hab Hbc.
  - destruct c; simpl; discriminate.
  - destruct b as [|y b]; [simpl in Hab; congruence|].
    destruct c as [|z c]; [simpl in Hbc; congruence|].
    simpl in *.
    destruct (Ascii.compare x y) eqn:Exy; try congruence;
      destruct (Ascii.compare y z) eqn:Eyz; try congruence.
    + apply Ascii.compare_eq_iff in Exy, Eyz. subst y z.
      rewrite ascii_compare_refl. now apply (IH b c).
    + apply Ascii.compare_eq_iff in Exy. subst y. now rewrite Eyz.
    + apply Ascii.compare_eq_iff in Eyz. subst z. now rewrite Exy.
    + unfold Ascii.compare in *.
      rewrite N.compare_lt_iff in Exy, Eyz.
      assert (H : (N_of_ascii x < N_of_ascii z)%N) by lia.
      apply N.compare_lt_iff in H. rewrite H. discriminate.
Qed.

Lemma string_leb_trans (a b c : string) :
  String.leb a b = true -> String.leb b c = true -> String.leb a c = true.
Proof.
  unfold String.leb. intros Hab Hbc.
  pose proof (string_compare_not_gt_trans a b c) as H.
  destruct (String.compare a b); destruct (String.compare b c);
    destruct (String.compare a c); try reflexivity; try discriminate;
    exfalso; apply H; congruence.
Qed.

Lemma key_le_trans (a b c : string * pyval) :
  key_le a b -> key_le b c -> key_le a c.
Proof. unfold key_le. apply string_leb_trans. Qed.

Lemma key_le_total (a b : string * pyval) : key_le a b \/ key_le b a.
Proof. unfold key_le. apply String.leb_total. Qed.

Lemma insert_item_perm (kv : string * pyval) (l : dict) :
  Permutation (insert_item kv l) (kv :: l).
Proof.
  induction l as [|kv' l IH]; simpl; [reflexivity|].
  destruct (String.leb (fst kv) (fst kv')); [reflexivity|].
  rewrite IH. apply perm_swap.
Qed.

Lemma sorted_items_perm (d : dict) : Permutation (sorted_items d) d.
Proof.
  induction d as [|kv d IH]; simpl; [reflexivity|].
  rewrite insert_item_perm. now constructor.
Qed.

Lemma insert_item_sorted (kv : string * pyval) (l : dict) :
  StronglySorted key_le l -> StronglySorted key_le (insert_item kv l).
Proof.
  induction l as [|kv' l IH]; intros Hs; simpl.
  - constructor; constructor.
  - destruct (String.leb (fst kv) (fst kv')) eqn:E.
    + constructor; [exact Hs|].
      inversion Hs as [|? ? Hs' Hall]; subst.
      constructor; [exact E|].
      eapply Forall_impl; [|exact Hall].
      intros c Hc. eapply key_le_trans; [exact E|exact Hc].
    + inversion Hs as [|? ? Hs' Hall]; subst.
      constructor; [now apply IH|].
      assert (Hle : key_le kv' kv).
      { destruct (key_le_total kv kv') as [H|H]; [|exact H].
        unfold key_le in H. congruence. }
      apply (Permutation_Forall (Permutation_sym (insert_item_perm kv l))).
      constructor; assumption.
Qed.

Lemma sorted_items_sorted (d : dict) : StronglySorted key_le (sorted_items d).
Proof.
  induction d as [|kv d IH]; simpl; [constructor|].
  now apply insert_item_sorted.
Qed.

Lemma strongly_sorted_filter (f : string * pyval -> bool) (l : dict) :
  StronglySorted key_le l -> StronglySorted key_le (filter f l).
Proof.
  induction l as [|kv l IH]; intros Hs; simpl; [constructor|].
  inversion Hs as [|? ? Hs' Hall]; subst.
  destruct (f kv); [|now apply IH].
  constructor; [now apply IH|].
  apply Forall_forall. intros x Hx. apply filter_In in Hx.
  rewrite Forall_forall in Hall. now apply Hall.
Qed.

Lemma filter_perm (f : string * pyval -> bool) (l l' : dict) :
  Permutation l l' -> Permutation (filter f l) (filter f l').
Proof.
  induction 1; simpl.
  - constructor.
  - destruct (f x); [constructor|]; assumption.
  - destruct (f x), (f y); try reflexivity. apply perm_swap.
  - etransitivity; eassumption.
Qed.

(** ** The attribute loop of [_new_node] and [block_op] *)

Lemma add_attributes_apply_all (n : node) (items : dict) (aten : pyval)
    (s : state) :
  add_attributes n items aten s =
  apply_all n (dict_del "inplace" items) aten s.
Proof.
  revert s. induction items as [|[k v] items IH]; intros s; [reflexivity|].
  cbn [add_attributes dict_del filter fst].
  rewrite (String.eqb_sym "inplace" k).
  destruct (String.eqb k "inplace"); cbn [negb].
  - apply IH.
  - cbn [apply_all]. rewrite !bind_run.
    destruct (_add_attribute n k v aten s) as [s1 [a|e]]; [apply IH|reflexivity].
Qed.

Lemma dict_del_keys (k : string) (d : dict) :
  Forall (fun kv => fst kv <> k) (dict_del k d).
Proof.
  apply Forall_forall. intros kv H. apply filter_In in H.
  destruct H as [_ H]. apply negb_true_iff in H.
  intros E. subst k. now rewrite String.eqb_refl in H.
Qed.

Lemma sorted_inplace_items (kwargs : dict) :
  StronglySorted key_le (dict_del "inplace" (sorted_items kwargs)) /\
  Permutation (dict_del "inplace" (sorted_items kwargs))
              (dict_del "inplace" kwargs) /\
  Forall (fun kv => fst kv <> "inplace"%string)
         (dict_del "inplace" (sorted_items kwargs)).
Proof.
  split; [|split].
  - apply strongly_sorted_filter, sorted_items_sorted.
  - apply filter_perm, sorted_items_perm.
  - apply dict_del_keys.
Qed.

(** ** [graph_op] *)

Lemma new_node_run (g : nat) (namespace op : string) (outputs : Z)
    (args : list pyval) (kwargs : dict) (s : state) :
  _new_node g namespace op outputs args kwargs s =
  let n := mkNode (fresh s) (Z.to_nat outputs) in
  match
    apply_all n
      (dict_del "inplace"
         (sorted_items (snd (dict_pop "aten" (PBool false) kwargs))))
      (fst (dict_pop "aten" (PBool false) kwargs))
      (mkState (S (fresh s))
         (trace s ++
          [Create g (fresh s) (namespace ++ "::" ++ op) args outputs]))
  with
  | (s2, Ok _) => (s2, Ok n)
  | (s2, Raise e) => (s2, Raise e)
  end.
Proof.
  unfold _new_node.
  destruct (dict_pop "aten" (PBool false) kwargs) as [aten kw].
  cbn [fst snd]. cbv [create new_node_id emit ret bind]. cbn [fresh trace].
  rewrite add_attributes_apply_all.
  destruct (apply_all _ _ _ _) as [s2 [u|e]]; reflexivity.
Qed.


Lemma unpack2_state (parts : list string) (s : state) :
  fst (unpack2 parts s) = s.
Proof. destruct parts as [|a [|b [|c parts]]]; reflexivity. Qed.

Lemma bind_new_node_kwargs_state (kw : dict) (s : state) :
  fst (bind_new_node_kwargs kw s) = s.
Proof.
  unfold bind_new_node_kwargs.
  repeat match goal with
    | |- context [if ?b then _ else _] => destruct b
    end; reflexivity.
Qed.

Lemma graph_op_run (d g : nat) (opname : string) (raw : list pyval)
    (outputs : Z) (kwargs : dict) (s : state) :
  graph_op_at (S d) g opname raw outputs kwargs s =
  match mapM (_const_if_tensor_with (graph_op_at d) g) raw s with
  | (s1, Raise e) => (s1, Raise e)
  | (s1, Ok args) =>
      graph_op_finish g opname outputs args (not_None_items kwargs) s1
  end.
Proof.
  cbn [graph_op_at]. fold (not_None_items kwargs). rewrite bind_run.
  destruct (mapM _ raw s) as [s1 [args|e]]; [|reflexivity].
  unfold graph_op_finish. rewrite bind_run.
  match goal with
  | |- context [(if contains_sep opname then ?a else ?b) s1] =>
      pose proof (unpack2_state (split_sep opname) s1) as Hu;
      destruct ((if contains_sep opname then a else b) s1)
        as [s2 [ns_op|e]] eqn:E
  end.
  - assert (s2 = s1).
    { destruct (contains_sep opname).
      - rewrite E in Hu. exact Hu.
      - inversion E. reflexivity. }
    subst s2. rewrite bind_run.
    pose proof (bind_new_node_kwargs_state (not_None_items kwargs) s1) as Hb.
    destruct (bind_new_node_kwargs (not_None_items kwargs) s1)
      as [s3 [u|e]]; cbn [fst] in Hb; subst s3; [|reflexivity].
    rewrite bind_run.
    destruct (_new_node g (fst ns_op) (snd ns_op) outputs args
                (not_None_items kwargs) s1) as [s2 [n|e]]; [|reflexivity].
    cbv [bind insertNode emit ret _jit_pass_onnx_node_shape_type_inference
         infer_events op_result].
    cbn [fresh trace].
    destruct (onnx_shape_inference GLOBALS); cbn [fresh trace];
      rewrite <- ?app_assoc; destruct (Z.eqb outputs 1); reflexivity.
  - assert (s2 = s1).
    { destruct (contains_sep opname).
      - rewrite E in Hu. exact Hu.
      - inversion E. }
    subst s2. reflexivity.
Qed.

Lemma attr_match_value_z : attr_match "value_z" = Some ("value", "z")%string.
Proof. reflexivity. Qed.

Lemma const_run (d g : nat) (arg : pyval) (s : state) :
  is_None arg = false ->
  graph_op_at (S d) g "Constant" [] 1 [("value_z"%string, arg)] s =
  (mkState (S (fresh s)) (trace s ++ const_events g (fresh s) arg),
   Ok (PValue (fresh s) 0)).
Proof.
  intros Hn. rewrite graph_op_run. cbn [mapM ret].
  unfold not_None_items. cbn [filter snd]. rewrite Hn. cbn [negb].
  unfold graph_op_finish. cbn [contains_sep ret fst snd].
  replace (bind_new_node_kwargs [("value_z"%string, arg)] s)
    with (s, @Ok unit tt) by reflexivity.
  rewrite new_node_run.
  replace (dict_pop "aten" (PBool false) [("value_z"%string, arg)])
    with (PBool false, [("value_z"%string, arg)]) by reflexivity.
  cbn [fst snd sorted_items insert_item].
  replace (dict_del "inplace" [("value_z"%string, arg)])
    with [("value_z"%string, arg)] by reflexivity.
  cbn [apply_all]. rewrite bind_run.
  rewrite (add_attribute_off_caffe2 _ _ _ _ _ _ _ attr_match_value_z)
    by reflexivity.
  cbv [ret after_setter const_events op_result node_output].
  cbn [fresh trace node_id Z.eqb Pos.eqb].
  rewrite <- !app_assoc. cbn [app].
  destruct (_is_onnx_list arg); reflexivity.
Qed.

Lemma state_eta (s : state) : mkState (fresh s) (trace s) = s.
Proof. destruct s; reflexivity. Qed.

Lemma const_if_tensor_run (d g : nat) (arg : pyval) (s : state) :
  _const_if_tensor_with (graph_op_at (S d)) g arg s =
  match arg with
  | PNone | PValue _ _ => (s, Ok arg)
  | _ =>
      (mkState (S (fresh s)) (trace s ++ const_events g (fresh s) arg),
       Ok (PValue (fresh s) 0))
  end.
Proof.
  destruct arg; try reflexivity; cbn [_const_if_tensor_with];
    now rewrite const_run.
Qed.

Lemma mapM_wrap (d g : nat) (raw : list pyval) :
  forall s : state,
    mapM (_const_if_tensor_with (graph_op_at (S d)) g) raw s =
    let '(args, evs, next) := wrap_args g (fresh s) raw in
    (mkState next (trace s ++ evs), Ok args).
Proof.
  induction raw as [|arg raw IH]; intros s.
  - cbn. now rewrite app_nil_r, state_eta.
  - cbn [mapM]. rewrite bind_run, const_if_tensor_run.
    destruct arg; cbn [wrap_args]; rewrite bind_run, IH; cbn [fresh trace];
      destruct (wrap_args g _ raw) as [[args evs] next];
      cbn [ret bind]; rewrite <- ?app_assoc; reflexivity.
Qed.

(** [graph_op]: the inputs first, then the node. *)
Lemma graph_op_unfold (d g : nat) (opname : string) (raw : list pyval)
    (outputs : Z) (kwargs : dict) (s : state) :
  graph_op_at (S (S d)) g opname raw outputs kwargs s =
  let '(args, evs, next) := wrap_args g (fresh s) raw in
  graph_op_finish g opname outputs args (not_None_items kwargs)
    (mkState next (trace s ++ evs)).
Proof.
  rewrite graph_op_run, mapM_wrap.
  destruct (wrap_args g (fresh s) raw) as [[args evs] next]. reflexivity.
Qed.

(** Two levels of calls are enough: a deeper bound changes nothing, and
    [RecursionError] is never raised. *)
Lemma graph_op_depth (d g : nat) (opname : string) (raw : list pyval)
    (outputs : Z) (kwargs : dict) (s : state) :
  graph_op_at (S (S d)) g opname raw outputs kwargs s =
  graph_op g opname raw outputs kwargs s.
Proof. unfold graph_op. now rewrite !graph_op_unfold. Qed.

Lemma wrapped_more (g : nat) (evs evs' : list event) (a b : pyval) :
  (forall e, In e evs -> In e evs') -> wrapped g evs a b -> wrapped g evs' a b.
Proof.
  intros Hin. destruct a; cbn [wrapped]; auto;
    intros (m & Hb & H1 & H2 & H3); exists m; auto.
Qed.

Lemma wrapped_const (g n : nat) (a : pyval) :
  match a with PNone | PValue _ _ => False | _ => True end ->
  wrapped g (const_events g n a) a (PValue n 0).
Proof.
  intros Ha.
  assert (H : exists m : nat,
             PValue n 0 = PValue m 0 /\
             In (Create g m "onnx::Constant" [] 1) (const_events g n a) /\
             In (SetAttr m (if _is_onnx_list a then "zs_" else "z_")
                   "value" a) (const_events g n a) /\
             In (InsertNode g m) (const_events g n a)).
  { exists n. unfold const_events. cbn [app In]. auto 10. }
  destruct a; cbn [wrapped]; try exact H; contradiction.
Qed.

Lemma triple_inj (A B C : Type) (a a' : A) (b b' : B) (c c' : C) :
  (a, b, c) = (a', b', c') -> a = a' /\ b = b' /\ c = c'.
Proof. intros H. inversion H. auto. Qed.

Lemma wrap_args_wrapped (g : nat) (raw : list pyval) :
  forall next args evs next',
    wrap_args g next raw = (args, evs, next') ->
    Forall2 (wrapped g evs) raw args.
Proof.
  induction raw as [|a raw IH]; intros next args evs next' H.
  - cbn in H. inversion H. constructor.
  - cbn [wrap_args] in H.
    destruct a;
      match type of H with
      | context [wrap_args g ?nx raw] =>
          destruct (wrap_args g nx raw) as [[args0 evs0] nx0] eqn:E
      end; apply triple_inj in H; destruct H as (H1 & H2 & H3);
      subst args evs next';
      specialize (IH _ _ _ _ E);
      try (constructor; [reflexivity|exact IH]);
      (constructor;
       [ eapply wrapped_more; [|apply wrapped_const; exact I];
         intros e He; apply in_or_app; now left
       | eapply Forall2_impl; [|exact IH];
         intros x y Hxy; eapply wrapped_more; [|exact Hxy];
         intros e He; apply in_or_app; now right ]).
Qed.

Lemma add_attribute_cases (n : node) (key : string) (value aten : pyval)
    (s : state) :
  (exists setter name v,
     _add_attribute n key value aten s =
     (after_setter s n setter name v, Ok (PNode n))) \/
  (exists e,
     _add_attribute n key value aten s = (s, Raise e) /\
     attr_error aten key value e).
Proof.
  unfold _add_attribute, attr_error, caffe2_path.
  destruct (attr_match key) as [[name kind]|] eqn:Hm.
  2:{ right. eexists. split; [reflexivity|]. left. auto. }
  destruct (py_truth tensor_truth aten && _is_caffe2_aten_fallback) eqn:Hc.
  2:{ left. rewrite bind_run. cbn [ret fst snd]. rewrite call_setter_run.
      eauto. }
  destruct value;
    try (left; rewrite bind_run; cbn [ret fst snd];
         rewrite call_setter_run; eauto; fail).
  rewrite bind_run.
  destruct (Z.gtb (numel t) 1) eqn:Hg.
  - right. eexists. split; [reflexivity|]. right. exists t.
    repeat split; try discriminate. left. split; [reflexivity|].
    apply Z.gtb_lt in Hg. exact Hg.
  - unfold _scalar. rewrite bind_run.
    destruct (Z.eqb (numel t) 1) eqn:He.
    + left. cbn [ret fst snd]. rewrite call_setter_run. eauto.
    + right. eexists. split; [reflexivity|]. right. exists t.
      repeat split; try discriminate. right. split; [reflexivity|].
      apply Z.eqb_neq in He.
      assert (~ (1 < numel t)%Z).
      { intros H. apply Z.gtb_lt in H. congruence. }
      lia.
Qed.

Lemma is_setter_after (s : state) (n : node) (setter name : string)
    (v : pyval) :
  exists e, trace (after_setter s n setter name v) = trace s ++ [e] /\
            is_setter_of (node_id n) e.
Proof. eexists. split; [reflexivity|]. unfold is_setter_of. eauto. Qed.

Lemma apply_all_cases (n : node) (aten : pyval) (items : dict) :
  forall s : state,
  exists evs : list event,
    Forall (is_setter_of (node_id n)) evs /\
    (apply_all n items aten s =
       (mkState (fresh s) (trace s ++ evs), Ok tt) \/
     exists e k v,
       apply_all n items aten s =
         (mkState (fresh s) (trace s ++ evs), Raise e) /\
       In (k, v) items /\ attr_error aten k v e).
Proof.
  induction items as [|[k v] items IH]; intros s.
  - exists []. split; [constructor|]. left. cbn.
    now rewrite app_nil_r, state_eta.
  - cbn [apply_all]. rewrite bind_run.
    destruct (add_attribute_cases n k v aten s)
      as [(setter & name & v' & H)|(e & H & He)]; rewrite H.
    + destruct (IH (after_setter s n setter name v')) as (evs & Hf & Hr).
      exists (SetAttr (node_id n) setter name v' :: evs).
      split; [constructor; [unfold is_setter_of; eauto|exact Hf]|].
      unfold after_setter in Hr. cbn [fresh trace] in Hr.
      rewrite <- app_assoc in Hr. cbn [app] in Hr.
      destruct Hr as [Hr|(e & k' & v'' & Hr & Hin & He)].
      * left. exact Hr.
      * right. exists e, k', v''. repeat split; auto. now right.
    + exists []. split; [constructor|]. right. exists e, k, v.
      rewrite app_nil_r, state_eta. repeat split; auto. now left.
Qed.

Lemma dict_del_in (k k' : string) (v : pyval) (d : dict) :
  In (k', v) (dict_del k d) -> In (k', v) d /\ k' <> k.
Proof.
  unfold dict_del. intros H. apply filter_In in H. destruct H as [H1 H2].
  split; [exact H1|]. cbn [fst] in H2. apply negb_true_iff in H2.
  intros E. subst k'. now rewrite String.eqb_refl in H2.
Qed.

Lemma dict_get_none (k : string) (d : dict) :
  dict_get k d = None -> forall v, ~ In (k, v) d.
Proof.
  induction d as [|[k' v'] d IH]; intros H v Hin; [contradiction|].
  cbn [dict_get] in H. destruct (String.eqb k k') eqn:E; [discriminate|].
  destruct Hin as [Hin|Hin].
  - inversion Hin; subst. now rewrite String.eqb_refl in E.
  - now apply (IH H v).
Qed.

(** The items that the attribute loop applies are keyword arguments other
    than [inplace] and [aten]. *)
Lemma applied_items_in (kw : dict) (k : string) (v : pyval) :
  In (k, v)
     (dict_del "inplace"
        (sorted_items (snd (dict_pop "aten" (PBool false) kw)))) ->
  In (k, v) kw /\ k <> "inplace"%string /\ k <> "aten"%string.
Proof.
  intros H. apply dict_del_in in H. destruct H as [H Hk].
  apply (Permutation_in _ (sorted_items_perm _)) in H.
  unfold dict_pop in H.
  destruct (dict_get "aten" kw) eqn:E; cbn [snd] in H.
  - apply dict_del_in in H. destruct H as [H Ha].
    split; [exact H|]. split; [exact Hk|exact Ha].
  - split; [exact H|]. split; [exact Hk|].
    intros ->. exact (dict_get_none _ _ E v H).
Qed.

Lemma finish_cases (g : nat) (opname : string) (outputs : Z)
    (args : list pyval) (kw : dict) (s1 : state) :
  (exists e,
     graph_op_finish g opname outputs args kw s1 = (s1, Raise e) /\
     interpreter_error opname kw e) \/
  (exists (kind : string) (attrs : list event),
     Forall (is_setter_of (fresh s1)) attrs /\
     (contains_sep opname = false -> kind = ("onnx::" ++ opname)%string) /\
     (graph_op_finish g opname outputs args kw s1 =
        (mkState (S (fresh s1))
           (trace s1 ++
            Create g (fresh s1) kind args outputs ::
            attrs ++ InsertNode g (fresh s1) :: infer_events (fresh s1)),
         Ok (op_result outputs (mkNode (fresh s1) (Z.to_nat outputs)))) \/
      exists e k v,
        graph_op_finish g opname outputs args kw s1 =
          (mkState (S (fresh s1))
             (trace s1 ++ Create g (fresh s1) kind args outputs :: attrs),
           Raise e) /\
        In (k, v) kw /\ k <> "inplace"%string /\ k <> "aten"%string /\
        attr_error (popped_aten kw) k v e)).
Proof.
  unfold graph_op_finish.
  assert (Hsplit :
    (exists ns_op,
       (if contains_sep opname then unpack2 (split_sep opname)
        else ret ("onnx"%string, opname)) s1 = (s1, Ok ns_op) /\
       (contains_sep opname = false -> ns_op = ("onnx"%string, opname))) \/
    ((if contains_sep opname then unpack2 (split_sep opname)
      else ret ("onnx"%string, opname)) s1 =
       (s1, Raise (ValueError unpack_msg)) /\
     contains_sep opname = true /\ length (split_sep opname) <> 2)).
  { destruct (contains_sep opname).
    - destruct (split_sep opname) as [|a [|b [|c l]]]; cbn;
        try (right; repeat split; (reflexivity || discriminate)).
      left. eexists. split; [reflexivity|discriminate].
    - left. eexists. split; reflexivity. }
  destruct Hsplit as [(ns_op & Hs & Hk)|(Hs & Hc & Hl)]; rewrite Hs.
  2:{ left. eexists. split; [reflexivity|]. left. auto. }
  assert (Hbind :
    bind_new_node_kwargs kw s1 = (s1, Ok tt) \/
    exists k, bind_new_node_kwargs kw s1 =
                (s1, Raise (TypeError (multiple_values_msg k))) /\
              dict_mem k kw = true).
  { unfold bind_new_node_kwargs.
    destruct (dict_mem "g" kw) eqn:E1; [right; eexists; split; [reflexivity|assumption]|].
    destruct (dict_mem "namespace" kw) eqn:E2;
      [right; eexists; split; [reflexivity|assumption]|].
    destruct (dict_mem "op" kw) eqn:E3; [right; eexists; split; [reflexivity|assumption]|].
    destruct (dict_mem "outputs" kw) eqn:E4;
      [right; eexists; split; [reflexivity|assumption]|].
    now left. }
  destruct Hbind as [Hb|(k & Hb & Hm)]; rewrite Hb.
  2:{ left. eexists. split; [reflexivity|]. right. eauto. }
  right. rewrite new_node_run. cbv zeta.
  match goal with
  | |- context [apply_all ?n ?items ?aten ?st] =>
      destruct (apply_all_cases n aten items st) as (attrs & Hf & Hr)
  end.
  exists (fst ns_op ++ "::" ++ snd ns_op)%string, attrs.
  cbn [node_id fresh trace] in Hf, Hr.
  split; [exact Hf|]. split.
  { intros Hc. rewrite (Hk Hc). reflexivity. }
  destruct Hr as [Hr|(e & k & v & Hr & Hin & He)]; rewrite Hr.
  - left. cbn [fresh trace node_id].
    rewrite <- !app_assoc. reflexivity.
  - right. exists e, k, v. rewrite <- !app_assoc.
    apply applied_items_in in Hin. destruct Hin as (H1 & H2 & H3).
    repeat split; auto.
Qed.

(** *** Shape inference and the global flag *)

Lemma infer_ok_nil (g : nat) : infer_ok g [].
Proof. split; intros; contradiction. Qed.

Lemma infer_ok_app (g : nat) (a b : list event) :
  infer_ok g a -> infer_ok g b -> infer_ok g (a ++ b).
Proof.
  intros [A1 A2] [B1 B2]. split.
  - intros m Hin Hf. apply in_app_or in Hin. apply in_or_app.
    destruct Hin; [left; now apply A1|right; now apply B1].
  - intros m p o Hin. apply in_app_or in Hin.
    destruct Hin as [Hin|Hin];
      [destruct (A2 _ _ _ Hin)|destruct (B2 _ _ _ Hin)];
      split; auto; apply in_or_app; auto.
Qed.

Lemma infer_ok_setters (g n : nat) (evs : list event) :
  Forall (is_setter_of n) evs -> infer_ok g evs.
Proof.
  intros Hf. rewrite Forall_forall in Hf. split.
  - intros m Hin. destruct (Hf _ Hin) as (a & b & c & H). discriminate.
  - intros m p o Hin. destruct (Hf _ Hin) as (a & b & c & H). discriminate.
Qed.

Lemma infer_ok_create (g g' n : nat) (kind : string) (args : list pyval)
    (outputs : Z) :
  infer_ok g [Create g' n kind args outputs].
Proof.
  split.
  - intros m [H|[]]. discriminate.
  - intros m p o [H|[]]. discriminate.
Qed.

Lemma infer_ok_insert (g n : nat) :
  infer_ok g (InsertNode g n :: infer_events n).
Proof.
  unfold infer_events. split.
  - intros m Hin Hf. rewrite Hf in *.
    destruct Hin as [H|[H|[]]]; [|discriminate].
    inversion H; subst. right. now left.
  - intros m p o Hin.
    destruct (onnx_shape_inference GLOBALS).
    + destruct Hin as [H|[H|[]]]; [discriminate|].
      inversion H; subst. split; [reflexivity|now left].
    + destruct Hin as [H|[]]. discriminate.
Qed.

Lemma infer_ok_const (g n : nat) (arg : pyval) :
  infer_ok g (const_events g n arg).
Proof.
  unfold const_events.
  change ([Create g n "onnx::Constant" [] 1;
           SetAttr n (if _is_onnx_list arg then "zs_" else "z_")%string
             "value" arg;
           InsertNode g n] ++ infer_events n)
    with ([Create g n "onnx::Constant" [] 1] ++
          [SetAttr n (if _is_onnx_list arg then "zs_" else "z_")%string
             "value" arg] ++
          InsertNode g n :: infer_events n).
  apply infer_ok_app; [apply infer_ok_create|].
  apply infer_ok_app; [|apply infer_ok_insert].
  apply (infer_ok_setters g n). constructor; [|constructor].
  unfold is_setter_of. eauto.
Qed.

Lemma infer_ok_wrap (g : nat) (raw : list pyval) :
  forall next args evs next',
    wrap_args g next raw = (args, evs, next') -> infer_ok g evs.
Proof.
  induction raw as [|a raw IH]; intros next args evs next' H.
  - cbn in H. inversion H. apply infer_ok_nil.
  - cbn [wrap_args] in H.
    destruct a;
      match type of H with
      | context [wrap_args g ?nx raw] =>
          destruct (wrap_args g nx raw) as [[args0 evs0] nx0] eqn:E
      end; apply triple_inj in H; destruct H as (H1 & H2 & H3);
      subst args evs next'; specialize (IH _ _ _ _ E);
      try exact IH;
      (apply infer_ok_app; [apply infer_ok_const|exact IH]).
Qed.

Lemma graph_op_trace (g : nat) (opname : string) (raw : list pyval)
    (outputs : Z) (kwargs : dict) (s : state) :
  exists evs : list event,
    trace (fst (graph_op g opname raw outputs kwargs s)) = trace s ++ evs /\
    infer_ok g evs /\
    (forall r, snd (graph_op g opname raw outputs kwargs s) = Ok r ->
               exists n, r = op_result outputs n /\
                         In (InsertNode g (node_id n)) evs).
Proof.
  unfold graph_op. rewrite graph_op_unfold.
  destruct (wrap_args g (fresh s) raw) as [[args evs1] next] eqn:Ew.
  pose proof (infer_ok_wrap _ _ _ _ _ _ Ew) as Hw.
  destruct (finish_cases g opname outputs args (not_None_items kwargs)
              (mkState next (trace s ++ evs1)))
    as [(e & Hr & _)|(kind & attrs & Hf & _ & Hr)].
  - rewrite Hr. exists evs1. cbn [fst snd trace].
    split; [reflexivity|]. split; [exact Hw|]. discriminate.
  - cbn [fresh trace] in Hr, Hf.
    destruct Hr as [Hr|(e & k & v & Hr & _)]; rewrite Hr; cbn [fst snd trace].
    + exists (evs1 ++ [Create g next kind args outputs] ++ attrs ++
              InsertNode g next :: infer_events next).
      split; [now rewrite <- app_assoc|]. split.
      * apply infer_ok_app; [exact Hw|].
        apply infer_ok_app; [apply infer_ok_create|].
        apply infer_ok_app; [now apply (infer_ok_setters g next)|].
        apply infer_ok_insert.
      * intros r Hr'. inversion Hr'; subst.
        eexists. split; [reflexivity|]. cbn [node_id].
        apply in_or_app. right. apply in_or_app. right.
        apply in_or_app. right. now left.
    + exists (evs1 ++ [Create g next kind args outputs] ++ attrs).
      split; [now rewrite <- app_assoc|]. split; [|discriminate].
      apply infer_ok_app; [exact Hw|].
      apply infer_ok_app; [apply infer_ok_create|].
      now apply (infer_ok_setters g next).
Qed.


(** C5.  [graph_op] treats a call as it treats the call without the
    keyword attributes whose value is [None]: the result and all native
    calls are the same, so no setter is called for such an attribute and
    nothing is raised for it, whatever its key; the node is built by
    [graph_op_finish] from the attributes that are not [None]. *)
Theorem graph_op_drops_None (g : nat) (opname : string) (raw : list pyval)
    (outputs : Z) (kwargs : dict) (s : state) :
  graph_op g opname raw outputs kwargs s =
  graph_op g opname raw outputs (not_None_items kwargs) s /\
  (forall (k : string) (kw1 kw2 : dict),
     kwargs = kw1 ++ (k, PNone) :: kw2 ->
     graph_op g opname raw outputs kwargs s =
     graph_op g opname raw outputs (kw1 ++ kw2) s) /\
  graph_op g opname raw outputs kwargs s =
  (let '(args, evs, next) := wrap_args g (fresh s) raw in
   graph_op_finish g opname outputs args (not_None_items kwargs)
     (mkState next (trace s ++ evs))).
Proof.
  assert (Hidem : forall d, not_None_items (not_None_items d) =
                            not_None_items d).
  { intros d. unfold not_None_items. induction d as [|kv d IH];
      [reflexivity|].
    cbn [filter]. destruct (negb (is_None (snd kv))) eqn:E;
      [cbn [filter]; rewrite E, IH; reflexivity|exact IH]. }
  unfold graph_op. rewrite !graph_op_unfold.
  split; [now rewrite Hidem|]. split; [|reflexivity].
  intros k kw1 kw2 ->. rewrite graph_op_unfold.
  unfold not_None_items. rewrite !filter_app. reflexivity.
Qed.

Lemma wrap_args_None (g next k : nat) :
  wrap_args g next (repeat PNone k) = (repeat PNone k, [], next).
Proof.
  induction k as [|k IH]; [reflexivity|].
  cbn [repeat wrap_args]. now rewrite IH.
Qed.

Lemma wrap_args_nth (g : nat) (raw : list pyval) :
  forall next args evs next',
    wrap_args g next raw = (args, evs, next') ->
    length args = length raw /\
    forall i, nth_error raw i = Some PNone -> nth_error args i = Some PNone.
Proof.
  intros next args evs next' H.
  apply wrap_args_wrapped in H.
  induction H as [|a b raw args Hab H IH].
  - split; [reflexivity|]. intros [|i]; discriminate.
  - destruct IH as [IH1 IH2]. split; [cbn; now rewrite IH1|].
    intros [|i] Hi; cbn in *.
    + inversion Hi; subst a. cbn in Hab. now subst b.
    + now apply IH2.
Qed.

(** C10.  A positional argument that is [None] goes through
    [_const_if_tensor] unchanged, with no native call and no exception;
    when [graph_op] returns, the inputs of the node it created hold [None]
    wherever the positional arguments do; and a call whose positional
    arguments are all [None] creates no [Constant] node: its native calls
    are the creation of the node with these inputs, its insertion and the
    inference pass. *)
Theorem graph_op_None_input :
  (forall (g : nat) (s : state), _const_if_tensor g PNone s = (s, Ok PNone)) /\
  (forall (g : nat) (opname : string) (raw : list pyval) (outputs : Z)
          (kwargs : dict) (s s' : state) (r : pyval),
     graph_op g opname raw outputs kwargs s = (s', Ok r) ->
     exists (args : list pyval) (evs1 evs2 : list event) (n : nat)
            (kind : string),
       trace s' = trace s ++ evs1 ++ Create g n kind args outputs :: evs2 /\
       length args = length raw /\
       forall i, nth_error raw i = Some PNone ->
                 nth_error args i = Some PNone) /\
  (forall (g : nat) (opname : string) (k : nat) (outputs : Z) (s : state),
     contains_sep opname = false ->
     graph_op g opname (repeat PNone k) outputs [] s =
     (mkState (S (fresh s))
        (trace s ++
         Create g (fresh s) ("onnx::" ++ opname) (repeat PNone k) outputs ::
         InsertNode g (fresh s) :: infer_events (fresh s)),
      Ok (op_result outputs (mkNode (fresh s) (Z.to_nat outputs))))).
Proof.
  split; [reflexivity|]. split.
  - intros g opname raw outputs kwargs s s' r H.
    unfold graph_op in H. rewrite graph_op_unfold in H.
    destruct (wrap_args g (fresh s) raw) as [[args evs1] next] eqn:Ew.
    destruct (wrap_args_nth _ _ _ _ _ _ Ew) as [Hl Hn].
    destruct (finish_cases g opname outputs args (not_None_items kwargs)
                (mkState next (trace s ++ evs1)))
      as [(e & Hr & _)|(kind & attrs & Hf & _ & Hr)].
    + rewrite Hr in H. discriminate.
    + cbn [fresh trace] in Hr.
      destruct Hr as [Hr|(e & k & v & Hr & _)]; rewrite Hr in H;
        [|discriminate].
      inversion H; subst s' r; clear H.
      exists args, evs1, (attrs ++ InsertNode g next :: infer_events next),
        next, kind.
      cbn [trace]. split; [now rewrite <- app_assoc|]. split; assumption.
  - intros g opname k outputs s Hc.
    unfold graph_op. rewrite graph_op_unfold, wrap_args_None.
    unfold graph_op_finish, not_None_items. rewrite Hc.
    cbn [filter ret fst snd].
    replace (bind_new_node_kwargs [] (mkState (fresh s) (trace s ++ [])))
      with (mkState (fresh s) (trace s ++ []), @Ok unit tt) by reflexivity.
    rewrite new_node_run. cbn. rewrite app_nil_r, <- app_assoc. reflexivity.
Qed.

(** ** What the module raises *)

Lemma not_None_items_in (k : string) (v : pyval) (kwargs : dict) :
  In (k, v) (not_None_items kwargs) -> In (k, v) kwargs /\ v <> PNone.
Proof.
  unfold not_None_items. intros H. apply filter_In in H.
  destruct H as [H1 H2]. split; [exact H1|].
  intros ->. discriminate.
Qed.

Lemma graph_op_raises (g : nat) (opname : string) (raw : list pyval)
    (outputs : Z) (kwargs : dict) (s s' : state) (e : exn) :
  graph_op g opname raw outputs kwargs s = (s', Raise e) ->
  interpreter_error opname (not_None_items kwargs) e \/
  exists k v,
    In (k, v) kwargs /\ v <> PNone /\
    k <> "inplace"%string /\ k <> "aten"%string /\
    attr_error (popped_aten (not_None_items kwargs)) k v e.
Proof.
  intros H. unfold graph_op in H. rewrite graph_op_unfold in H.
  destruct (wrap_args g (fresh s) raw) as [[args evs1] next].
  destruct (finish_cases g opname outputs args (not_None_items kwargs)
              (mkState next (trace s ++ evs1)))
    as [(e' & Hr & He)|(kind & attrs & _ & _ & Hr)].
  - rewrite Hr in H. inversion H; subst. now left.
  - destruct Hr as [Hr|(e' & k & v & Hr & Hin & Hk1 & Hk2 & He)];
      rewrite Hr in H; [discriminate|].
    inversion H; subst. right. exists k, v.
    apply not_None_items_in in Hin. destruct Hin as [Hin Hv].
    repeat split; assumption.
Qed.


Lemma attr_error_kind (aten : pyval) (k : string) (v : pyval) (e : exn) :
  attr_error aten k v e ->
  match e with
  | ValueError _ | AssertionError => True
  | _ => False
  end.
Proof.
  intros [[-> _]|(t & _ & _ & _ & [[-> _]|[-> _]])]; exact I.
Qed.




(** ** The operator name: ["::" in opname] and [opname.split("::")] *)

Lemma split_sep_from_cons (cur : string) (c : ascii) (s : string) :
  split_sep_from cur (String c s) =
  if Ascii.eqb c ":" then
    match s with
    | String d s' =>
        if Ascii.eqb d ":" then cur :: split_sep_from EmptyString s'
        else split_sep_from (cur ++ String c EmptyString) s
    | EmptyString => split_sep_from (cur ++ String c EmptyString) s
    end
  else split_sep_from (cur ++ String c EmptyString) s.
Proof.
  destruct c as [[] [] [] [] [] [] [] []]; try reflexivity.
  destruct s as [|d s']; [reflexivity|].
  destruct d as [[] [] [] [] [] [] [] []]; reflexivity.
Qed.

Lemma contains_sep_cons (c : ascii) (s : string) :
  contains_sep (String c s) =
  if Ascii.eqb c ":" then
    match s with
    | String d s' => if Ascii.eqb d ":" then true else contains_sep s
    | EmptyString => contains_sep s
    end
  else contains_sep s.
Proof.
  destruct c as [[] [] [] [] [] [] [] []]; try reflexivity.
  destruct s as [|d s']; [reflexivity|].
  destruct d as [[] [] [] [] [] [] [] []]; reflexivity.
Qed.

Lemma append_nil_r (a : string) : (a ++ EmptyString)%string = a.
Proof. induction a as [|x a IH]; simpl; [reflexivity|now rewrite IH]. Qed.

Lemma append_cons_assoc (cur : string) (c : ascii) (s : string) :
  ((cur ++ String c EmptyString) ++ s)%string = (cur ++ String c s)%string.
Proof. now rewrite append_assoc. Qed.

Lemma split_sep_from_not_nil (n : nat) :
  forall s cur, String.length s <= n -> split_sep_from cur s <> [].
Proof.
  induction n as [|n IH]; intros s cur Hl.
  - destruct s; [discriminate|simpl in Hl; lia].
  - destruct s as [|c s]; [discriminate|].
    cbn [String.length] in Hl. rewrite split_sep_from_cons.
    destruct (Ascii.eqb c ":"); [|apply IH; lia].
    destruct s as [|d s']; [apply IH; cbn; lia|].
    destruct (Ascii.eqb d ":"); [discriminate|apply IH; lia].
Qed.

(** Joining the parts gives the string back. *)
Lemma join_split_from (n : nat) :
  forall s cur, String.length s <= n ->
    join_sep (split_sep_from cur s) = (cur ++ s)%string.
Proof.
  induction n as [|n IH]; intros s cur Hl.
  - destruct s; [|simpl in Hl; lia]. cbn. now rewrite append_nil_r.
  - destruct s as [|c s]; [cbn; now rewrite append_nil_r|].
    cbn [String.length] in Hl. rewrite split_sep_from_cons.
    destruct (Ascii.eqb_spec c ":") as [->|Hc].
    + destruct s as [|d s'].
      * rewrite IH by (cbn; lia). now rewrite append_cons_assoc.
      * destruct (Ascii.eqb_spec d ":") as [->|Hd].
        -- cbn [join_sep].
           assert (Hs : join_sep (split_sep_from EmptyString s') = s').
           { rewrite IH by (cbn [String.length] in Hl; lia). reflexivity. }
           destruct (split_sep_from EmptyString s') as [|p ps] eqn:E.
           ++ exfalso. apply (split_sep_from_not_nil n s' EmptyString);
                [cbn [String.length] in Hl; lia|exact E].
           ++ rewrite Hs. reflexivity.
        -- rewrite IH by lia. now rewrite append_cons_assoc.
    + rewrite IH by lia. now rewrite append_cons_assoc.
Qed.

Lemma split_no_sep (n : nat) :
  forall s cur, String.length s <= n -> contains_sep s = false ->
    split_sep_from cur s = [(cur ++ s)%string].
Proof.
  induction n as [|n IH]; intros s cur Hl Hc.
  - destruct s; [|simpl in Hl; lia]. cbn. now rewrite append_nil_r.
  - destruct s as [|c s]; [cbn; now rewrite append_nil_r|].
    cbn [String.length] in Hl.
    rewrite split_sep_from_cons. rewrite contains_sep_cons in Hc.
    destruct (Ascii.eqb c ":").
    + destruct s as [|d s'].
      * rewrite IH by (auto; cbn; lia). now rewrite append_cons_assoc.
      * destruct (Ascii.eqb d ":"); [discriminate|].
        rewrite IH by (auto; lia). now rewrite append_cons_assoc.
    + rewrite IH by (auto; lia). now rewrite append_cons_assoc.
Qed.

Lemma split_with_sep (n : nat) :
  forall s cur, String.length s <= n -> contains_sep s = true ->
    2 <= length (split_sep_from cur s).
Proof.
  induction n as [|n IH]; intros s cur Hl Hc.
  - destruct s; [discriminate|simpl in Hl; lia].
  - destruct s as [|c s]; [discriminate|].
    cbn [String.length] in Hl.
    rewrite split_sep_from_cons. rewrite contains_sep_cons in Hc.
    destruct (Ascii.eqb c ":").
    + destruct s as [|d s'].
      * apply IH; [cbn; lia|exact Hc].
      * destruct (Ascii.eqb d ":"); [|apply IH; [lia|exact Hc]].
        cbn [length].
        pose proof (split_sep_from_not_nil n s' EmptyString) as Hn.
        destruct (split_sep_from EmptyString s');
          [exfalso; apply Hn; [cbn [String.length] in Hl; lia|reflexivity]|].
        cbn. lia.
    + apply IH; [lia|exact Hc].
Qed.

(** For an [opname] that splits in two at its ["::"], the name and the
    namespace that [graph_op] puts together again are [opname]. *)
Lemma split_two_join (opname a b : string) :
  split_sep opname = [a; b] -> (a ++ "::" ++ b)%string = opname.
Proof.
  intros H.
  pose proof (join_split_from (String.length opname) opname EmptyString
                (le_n _)) as J.
  fold (split_sep opname) in J. rewrite H in J. exact J.
Qed.

(** ** What a call of [_add_attribute] that returns has done *)

Lemma add_attribute_ok (n : node) (k : string) (v aten : pyval)
    (s s' : state) (r : pyval) :
  _add_attribute n k v aten s = (s', Ok r) ->
  exists e, s' = mkState (fresh s) (trace s ++ [e]) /\
            setter_call aten (node_id n) k v e.
Proof.
  unfold _add_attribute, setter_call.
  destruct (attr_match k) as [[name kind]|] eqn:Hm; [|discriminate].
  unfold caffe2_path.
  destruct (py_truth tensor_truth aten && _is_caffe2_aten_fallback) eqn:Hc;
    cbn [andb].
  - destruct v; rewrite bind_run; cbn [ret fst snd is_Tensor];
      try (rewrite call_setter_run; intros H; inversion H;
           eexists; split; [reflexivity|];
           exists name, kind; split; [reflexivity|];
           cbn; rewrite ?append_assoc; reflexivity).
    destruct (Z.gtb (numel t) 1); [discriminate|].
    unfold _scalar. rewrite bind_run.
    destruct (Z.eqb_spec (numel t) 1) as [E|E]; [|discriminate].
    cbn [ret fst snd]. rewrite call_setter_run.
    intros H; inversion H. eexists. split; [reflexivity|].
    exists name, kind. split; [reflexivity|].
    exists t. split; [reflexivity|]. split; [exact E|].
    destruct (is_float (getitem0 t)); reflexivity.
  - rewrite bind_run. cbn [ret fst snd]. rewrite call_setter_run.
    intros H; inversion H. eexists. split; [reflexivity|].
    exists name, kind. split; [reflexivity|].
    destruct (_is_onnx_list v); rewrite ?append_assoc; reflexivity.
Qed.

Lemma add_attribute_returns (n : node) (k : string) (v aten : pyval)
    (s : state) :
  attr_ok aten k v ->
  exists s' r, _add_attribute n k v aten s = (s', Ok r).
Proof.
  intros [Hm Hc].
  destruct (add_attribute_cases n k v aten s)
    as [(setter & name & v' & H)|(e & H & He)]; [eauto|].
  exfalso. destruct He as [[_ Hn]|(t & Hv & Hp & _ & Hnum)];
    [now apply Hm|].
  destruct (Hc Hp) as (t' & Hv' & H1). subst v. inversion Hv'; subst t'.
  destruct Hnum as [[_ Hn]|[_ Hn]]; lia.
Qed.

Lemma setter_call_ok (aten : pyval) (n : nat) (k : string) (v : pyval)
    (e : event) :
  setter_call aten n k v e -> attr_ok aten k v.
Proof.
  intros (name & kind & Hm & He). split; [congruence|].
  intros Hc. rewrite Hc in He. destruct He as (t & Hv & Hn & _). eauto.
Qed.

Lemma apply_all_ok (n : node) (aten : pyval) (items : dict) :
  forall (s s' : state) (u : unit),
    apply_all n items aten s = (s', Ok u) ->
    exists evs : list event,
      s' = mkState (fresh s) (trace s ++ evs) /\
      Forall2 (fun kv e => setter_call aten (node_id n) (fst kv) (snd kv) e)
              items evs.
Proof.
  induction items as [|[k v] items IH]; intros s s' u H.
  - cbn in H. inversion H. exists []. split; [|constructor].
    now rewrite app_nil_r, state_eta.
  - cbn [apply_all] in H. rewrite bind_run in H.
    destruct (_add_attribute n k v aten s) as [s1 [r|e]] eqn:E;
      [|discriminate].
    apply add_attribute_ok in E. destruct E as (e & -> & He).
    apply IH in H. destruct H as (evs & -> & Hf).
    exists (e :: evs). cbn [fresh trace]. split.
    + now rewrite <- app_assoc.
    + constructor; assumption.
Qed.

Lemma apply_all_returns (n : node) (aten : pyval) (items : dict) :
  Forall (fun kv => attr_ok aten (fst kv) (snd kv)) items ->
  forall s, exists s', apply_all n items aten s = (s', Ok tt).
Proof.
  induction 1 as [|[k v] items Hkv Hf IH]; intros s.
  - eexists. reflexivity.
  - cbn [apply_all]. rewrite bind_run.
    destruct (add_attribute_returns n k v aten s Hkv) as (s1 & r & ->).
    apply IH.
Qed.

(** ** The calls of [graph_op] that return *)

Lemma split_opname_cases (opname : string) (s1 : state) :
  (exists ns op,
     (if contains_sep opname then unpack2 (split_sep opname)
      else ret ("onnx"%string, opname)) s1 = (s1, Ok (ns, op)) /\
     (ns ++ "::" ++ op)%string = op_kind opname /\
     (contains_sep opname = true -> length (split_sep opname) = 2)) \/
  ((if contains_sep opname then unpack2 (split_sep opname)
    else ret ("onnx"%string, opname)) s1 =
     (s1, Raise (ValueError unpack_msg)) /\
   contains_sep opname = true /\ length (split_sep opname) <> 2).
Proof.
  unfold op_kind. destruct (contains_sep opname) eqn:Hc.
  - destruct (split_sep opname) as [|a [|b [|c l]]] eqn:E; cbn;
      try (right; repeat split; (reflexivity || discriminate)).
    left. exists a, b. split; [reflexivity|]. split; [|reflexivity].
    now apply split_two_join.
  - left. exists "onnx"%string, opname. repeat split. discriminate.
Qed.

Lemma bind_new_node_kwargs_cases (kw : dict) (s1 : state) :
  (bind_new_node_kwargs kw s1 = (s1, Ok tt) /\ no_reserved_key kw) \/
  (exists k, bind_new_node_kwargs kw s1 =
               (s1, Raise (TypeError (multiple_values_msg k))) /\
             ~ no_reserved_key kw).
Proof.
  unfold bind_new_node_kwargs, no_reserved_key.
  destruct (dict_mem "g" kw);
    [right; eexists; split; [reflexivity|intros (H & _); discriminate]|].
  destruct (dict_mem "namespace" kw);
    [right; eexists; split;
       [reflexivity|intros (_ & H & _); discriminate]|].
  destruct (dict_mem "op" kw);
    [right; eexists; split;
       [reflexivity|intros (_ & _ & H & _); discriminate]|].
  destruct (dict_mem "outputs" kw);
    [right; eexists; split;
       [reflexivity|intros (_ & _ & _ & H); discriminate]|].
  left. repeat split.
Qed.

Lemma finish_ok (g : nat) (opname : string) (outputs : Z)
    (args : list pyval) (kw : dict) (s1 s' : state) (r : pyval) :
  graph_op_finish g opname outputs args kw s1 = (s', Ok r) ->
  (contains_sep opname = true -> length (split_sep opname) = 2) /\
  no_reserved_key kw /\
  exists attrs : list event,
    s' = mkState (S (fresh s1))
           (trace s1 ++
            Create g (fresh s1) (op_kind opname) args outputs ::
            attrs ++ InsertNode g (fresh s1) :: infer_events (fresh s1)) /\
    r = op_result outputs (mkNode (fresh s1) (Z.to_nat outputs)) /\
    Forall2 (fun kv e =>
               setter_call (popped_aten kw) (fresh s1) (fst kv) (snd kv) e)
            (applied_items kw) attrs.
Proof.
  unfold graph_op_finish. intros H.
  destruct (split_opname_cases opname s1)
    as [(ns & op & Hs & Hk & Hl)|(Hs & _)]; rewrite Hs in H; [|discriminate].
  destruct (bind_new_node_kwargs_cases kw s1) as [[Hb Hr]|(k & Hb & _)];
    rewrite Hb in H; [|discriminate].
  cbn [fst snd] in H. rewrite new_node_run in H. cbv zeta in H.
  fold (applied_items kw) in H. fold (popped_aten kw) in H.
  destruct (apply_all _ (applied_items kw) (popped_aten kw) _)
    as [s2 [u|e]] eqn:E; [|discriminate].
  apply apply_all_ok in E. destruct E as (attrs & -> & Hf).
  cbn [fresh trace node_id] in *. inversion H; subst s' r; clear H.
  split; [exact Hl|]. split; [exact Hr|].
  exists attrs. rewrite <- Hk. split; [|split; [reflexivity|exact Hf]].
  now rewrite <- !app_assoc.
Qed.

Lemma finish_returns (g : nat) (opname : string) (outputs : Z)
    (args : list pyval) (kw : dict) (s1 : state) :
  (contains_sep opname = true -> length (split_sep opname) = 2) ->
  no_reserved_key kw ->
  Forall (fun kv => attr_ok (popped_aten kw) (fst kv) (snd kv))
         (applied_items kw) ->
  exists s' r, graph_op_finish g opname outputs args kw s1 = (s', Ok r).
Proof.
  intros Hl Hr Hf. unfold graph_op_finish.
  destruct (split_opname_cases opname s1)
    as [(ns & op & Hs & Hk & _)|(Hs & Hc & Hn)]; rewrite Hs;
    [|exfalso; apply Hn; now apply Hl].
  destruct (bind_new_node_kwargs_cases kw s1) as [[Hb _]|(k & Hb & Hn)];
    rewrite Hb; [|contradiction].
  cbn [fst snd]. rewrite new_node_run. cbv zeta.
  fold (applied_items kw). fold (popped_aten kw).
  match goal with
  | |- context [apply_all ?n _ _ ?st] =>
      destruct (apply_all_returns n (popped_aten kw) (applied_items kw) Hf st)
        as (s2 & ->)
  end.
  eauto.
Qed.

Lemma graph_op_ok (g : nat) (opname : string) (raw : list pyval)
    (outputs : Z) (kwargs : dict) (s s' : state) (r : pyval) :
  graph_op g opname raw outputs kwargs s = (s', Ok r) ->
  exists (args : list pyval) (evs1 attrs : list event) (n : nat),
    wrap_args g (fresh s) raw = (args, evs1, n) /\
    s' = mkState (S n)
           (trace s ++ evs1 ++
            Create g n (op_kind opname) args outputs ::
            attrs ++ InsertNode g n :: infer_events n) /\
    r = op_result outputs (mkNode n (Z.to_nat outputs)) /\
    Forall2 (fun kv e =>
               setter_call (popped_aten (not_None_items kwargs)) n
                 (fst kv) (snd kv) e)
            (applied_items (not_None_items kwargs)) attrs.
Proof.
  intros H. unfold graph_op in H. rewrite graph_op_unfold in H.
  destruct (wrap_args g (fresh s) raw) as [[args evs1] n] eqn:Ew.
  apply finish_ok in H. destruct H as (_ & _ & attrs & -> & -> & Hf).
  cbn [fresh trace] in *.
  exists args, evs1, attrs, n. split; [reflexivity|].
  split; [now rewrite <- app_assoc|]. split; [reflexivity|exact Hf].
Qed.

Lemma wrap_args_next (g : nat) (raw : list pyval) :
  forall next args evs next',
    wrap_args g next raw = (args, evs, next') ->
    next' = next + length (filter needs_const raw) /\
    Forall (fun e => next <= event_node e < next') evs /\
    Forall is_input args.
Proof.
  induction raw as [|a raw IH]; intros next args evs next' H.
  - cbn in H. inversion H; subst. cbn. split; [lia|]. split; constructor.
  - cbn [wrap_args] in H.
    destruct a;
      match type of H with
      | context [wrap_args g ?nx raw] =>
          destruct (wrap_args g nx raw) as [[args0 evs0] nx0] eqn:E
      end; apply triple_inj in H; destruct H as (H1 & H2 & H3);
      subst args evs next'; destruct (IH _ _ _ _ E) as (Hn & Hf & Hi);
      cbn [filter needs_const length].
    all: try (split; [exact Hn|]; split; [exact Hf|];
              constructor; [|exact Hi]; unfold is_input; eauto; fail).
    all: split; [lia|]; split;
      [|constructor; [unfold is_input; eauto|exact Hi]].
    all: apply Forall_app; split;
      [|eapply Forall_impl; [|exact Hf]; cbn; intros; lia].
    all: unfold const_events, infer_events;
      destruct (onnx_shape_inference GLOBALS);
      repeat constructor; cbn [event_node]; lia.
Qed.

(** X1.  [graph_op] returns exactly when the operator name splits in two
    at its ["::"] (or holds none), no attribute that is not [None] is named
    [g], [namespace], [op] or [outputs], and every attribute that is not
    [None], [inplace] or [aten] has a key that the pattern accepts and, on
    the Caffe2 branch, a tensor of one element. *)
Theorem graph_op_returns_iff (g : nat) (opname : string) (raw : list pyval)
    (outputs : Z) (kwargs : dict) (s : state) :
  (exists s' r, graph_op g opname raw outputs kwargs s = (s', Ok r)) <->
  (contains_sep opname = true -> length (split_sep opname) = 2) /\
  no_reserved_key (not_None_items kwargs) /\
  Forall (fun kv =>
            attr_ok (popped_aten (not_None_items kwargs)) (fst kv) (snd kv))
         (applied_items (not_None_items kwargs)).
Proof.
  unfold graph_op. rewrite graph_op_unfold.
  destruct (wrap_args g (fresh s) raw) as [[args evs1] n].
  split.
  - intros (s' & r & H). apply finish_ok in H.
    destruct H as (Hl & Hr & attrs & _ & _ & Hf).
    split; [exact Hl|]. split; [exact Hr|].
    clear -Hf. induction Hf as [|kv e items evs He Hf IH]; constructor.
    + eapply setter_call_ok. exact He.
    + exact IH.
  - intros (Hl & Hr & Hf). now apply finish_returns.
Qed.

(** X2.  When [graph_op] returns, the node it created is the next free one
    after the [Constant] nodes of the wrapped arguments; for [outputs = 1]
    the result is output 0 of this node, otherwise it is the tuple of its
    [outputs] outputs (the empty tuple for [outputs <= 0]). *)
Theorem graph_op_result (g : nat) (opname : string) (raw : list pyval)
    (outputs : Z) (kwargs : dict) (s s' : state) (r : pyval) :
  graph_op g opname raw outputs kwargs s = (s', Ok r) ->
  let n := fresh s + length (filter needs_const raw) in
  fresh s' = S n /\
  In (InsertNode g n) (trace s') /\
  (outputs = 1%Z -> r = PValue n 0) /\
  (outputs <> 1%Z ->
   r = PTuple (map (PValue n) (seq 0 (Z.to_nat outputs)))).
Proof.
  intros H. apply graph_op_ok in H.
  destruct H as (args & evs1 & attrs & n & Hw & -> & -> & _).
  apply wrap_args_next in Hw. destruct Hw as (-> & _ & _).
  cbn zeta. cbn [fresh trace]. split; [reflexivity|]. split.
  - apply in_or_app. right. apply in_or_app. right. right.
    apply in_or_app. right. now left.
  - unfold op_result, node_output, node_outputs_list. cbn [node_id node_outputs].
    split; intros Ho.
    + subst outputs. reflexivity.
    + apply Z.eqb_neq in Ho. now rewrite Ho.
Qed.

(** X3.  When [graph_op] returns, the native calls it made are, in this
    order: the calls that wrap the positional arguments, the creation of
    node [n] whose kind is [opname] itself when it holds ["::"] and
    [onnx::opname] otherwise, one setter call for each attribute that is
    not [None], [inplace] or [aten], in the sorted order of the keys, the
    insertion of [n], and the inference pass when the flag asks for it.
    Every input of the node is [None] or a graph value. *)
Theorem graph_op_calls (g : nat) (opname : string) (raw : list pyval)
    (outputs : Z) (kwargs : dict) (s s' : state) (r : pyval) :
  graph_op g opname raw outputs kwargs s = (s', Ok r) ->
  exists (args : list pyval) (evs1 attrs : list event) (n : nat),
    wrap_args g (fresh s) raw = (args, evs1, n) /\
    trace s' =
      trace s ++ evs1 ++
      Create g n (if contains_sep opname then opname
                  else ("onnx::" ++ opname)%string) args outputs ::
      attrs ++ InsertNode g n :: infer_events n /\
    Forall2 (fun kv e =>
               setter_call (popped_aten (not_None_items kwargs)) n
                 (fst kv) (snd kv) e)
            (applied_items (not_None_items kwargs)) attrs /\
    StronglySorted key_le (applied_items (not_None_items kwargs)) /\
    Forall is_input args.
Proof.
  intros H. apply graph_op_ok in H.
  destruct H as (args & evs1 & attrs & n & Hw & -> & _ & Hf).
  exists args, evs1, attrs, n. split; [exact Hw|].
  split; [reflexivity|]. split; [exact Hf|]. split.
  - apply strongly_sorted_filter, sorted_items_sorted.
  - now destruct (wrap_args_next _ _ _ _ _ _ Hw) as (_ & _ & Hi).
Qed.

Lemma graph_op_not_recursion (g : nat) (opname : string)
    (raw : list pyval) (outputs : Z) (kwargs : dict) (s s' : state)
    (e : exn) :
  graph_op g opname raw outputs kwargs s = (s', Raise e) ->
  e <> RecursionError.
Proof.
  intros H. pose proof (graph_op_raises _ _ _ _ _ _ _ _ H) as Hr.
  destruct Hr as [[(-> & _)|(k & -> & _)]|(k & v & _ & _ & _ & _ & He)];
    try discriminate.
  apply attr_error_kind in He. intros ->. exact He.
Qed.

(** X4.  When [graph_op] raises, the [Constant] nodes of the positional
    arguments have been created and inserted all the same, the node of the
    call itself has not been inserted and no inference has been run for
    it, and the exception is not [RecursionError]. *)
Theorem graph_op_failure (g : nat) (opname : string) (raw : list pyval)
    (outputs : Z) (kwargs : dict) (s s' : state) (e : exn) :
  graph_op g opname raw outputs kwargs s = (s', Raise e) ->
  e <> RecursionError /\
  exists (args : list pyval) (evs1 rest : list event) (n : nat),
    wrap_args g (fresh s) raw = (args, evs1, n) /\
    trace s' = trace s ++ evs1 ++ rest /\
    (forall g' m, ~ In (InsertNode g' m) rest) /\
    (forall m p o, ~ In (InferShape m p o) rest).
Proof.
  intros H. split; [exact (graph_op_not_recursion _ _ _ _ _ _ _ _ H)|].
  unfold graph_op in H. rewrite graph_op_unfold in H.
  destruct (wrap_args g (fresh s) raw) as [[args evs1] n] eqn:Ew.
  exists args, evs1.
  destruct (finish_cases g opname outputs args (not_None_items kwargs)
              (mkState n (trace s ++ evs1)))
    as [(e' & Hr & _)|(kind & attrs & Hf & _ & Hr)].
  - rewrite Hr in H. inversion H; subst. exists [], n.
    cbn [trace]. split; [reflexivity|]. split; [now rewrite app_nil_r|].
    split; intros; intros [].
  - cbn [fresh trace] in Hr, Hf.
    destruct Hr as [Hr|(e' & k & v & Hr & _)]; rewrite Hr in H;
      [discriminate|].
    inversion H; subst. exists (Create g n kind args outputs :: attrs), n.
    cbn [trace]. split; [reflexivity|]. split; [now rewrite <- app_assoc|].
    rewrite Forall_forall in Hf.
    split.
    + intros g' m [Hin|Hin]; [discriminate|].
      destruct (Hf _ Hin) as (a & b & c & Hx). discriminate.
    + intros m p o [Hin|Hin]; [discriminate|].
      destruct (Hf _ Hin) as (a & b & c & Hx). discriminate.
Qed.

(** X5.  Whatever its outcome, [graph_op] makes native calls on new nodes
    only: every call it adds to the trace is about a node that was free
    before it and is taken after it. *)
Theorem graph_op_fresh_nodes (g : nat) (opname : string) (raw : list pyval)
    (outputs : Z) (kwargs : dict) (s : state) :
  exists evs : list event,
    trace (fst (graph_op g opname raw outputs kwargs s)) = trace s ++ evs /\
    fresh s <= fresh (fst (graph_op g opname raw outputs kwargs s)) /\
    Forall (fun e =>
              fresh s <= event_node e <
              fresh (fst (graph_op g opname raw outputs kwargs s))) evs.
Proof.
  unfold graph_op. rewrite graph_op_unfold.
  destruct (wrap_args g (fresh s) raw) as [[args evs1] n] eqn:Ew.
  destruct (wrap_args_next _ _ _ _ _ _ Ew) as (Hn & Hf1 & _).
  destruct (finish_cases g opname outputs args (not_None_items kwargs)
              (mkState n (trace s ++ evs1)))
    as [(e' & Hr & _)|(kind & attrs & Hf & _ & Hr)].
  - rewrite Hr. cbn [fst fresh trace]. exists evs1.
    split; [reflexivity|]. split; [lia|exact Hf1].
  - cbn [fresh trace] in Hr, Hf.
    assert (Hattrs : Forall (fun e => fresh s <= event_node e < S n) attrs).
    { eapply Forall_impl; [|exact Hf].
      intros e (a & b & c & ->). cbn. lia. }
    assert (Hevs1 : Forall (fun e => fresh s <= event_node e < S n) evs1).
    { eapply Forall_impl; [|exact Hf1]. cbn. intros. lia. }
    destruct Hr as [Hr|(e' & k & v & Hr & _)]; rewrite Hr;
      cbn [fst fresh trace].
    + exists (evs1 ++ Create g n kind args outputs ::
              attrs ++ InsertNode g n :: infer_events n).
      split; [now rewrite <- app_assoc|]. split; [lia|].
      apply Forall_app. split; [exact Hevs1|].
      constructor; [cbn; lia|].
      apply Forall_app. split; [exact Hattrs|].
      constructor; [cbn; lia|].
      unfold infer_events. destruct (onnx_shape_inference GLOBALS);
        repeat constructor; cbn; lia.
    + exists (evs1 ++ Create g n kind args outputs :: attrs).
      split; [now rewrite <- app_assoc|]. split; [lia|].
      apply Forall_app. split; [exact Hevs1|].
      constructor; [cbn; lia|exact Hattrs].
Qed.

(** X6.  The calls of [graph_op] and [_const_if_tensor] never nest deeper
    than two: with any bound of two or more [graph_op] does what it does
    with two, and with the bound one it raises [RecursionError] as soon as
    a positional argument has to be wrapped. *)
Theorem graph_op_depth_two (g : nat) (opname : string) (raw : list pyval)
    (outputs : Z) (kwargs : dict) (s : state) :
  (forall d, graph_op_at (S (S d)) g opname raw outputs kwargs s =
             graph_op g opname raw outputs kwargs s) /\
  (forall e, snd (graph_op g opname raw outputs kwargs s) = Raise e ->
             e <> RecursionError) /\
  (existsb needs_const raw = true ->
   snd (graph_op_at 1 g opname raw outputs kwargs s) = Raise RecursionError).
Proof.
  split; [intros d; apply graph_op_depth|]. split.
  - intros e He.
    destruct (graph_op g opname raw outputs kwargs s) as [s' r] eqn:E.
    cbn [snd] in He. subst r.
    exact (graph_op_not_recursion _ _ _ _ _ _ _ _ E).
  - intros Hex. rewrite graph_op_run.
    assert (Hm : forall st,
      snd (mapM (_const_if_tensor_with (graph_op_at 0) g) raw st) =
      Raise RecursionError).
    { induction raw as [|a raw IH]; [discriminate|]. intros st.
      cbn [mapM]. rewrite bind_run. cbn [existsb] in Hex.
      destruct a; cbn [needs_const orb] in Hex; try reflexivity;
        cbn [_const_if_tensor_with ret]; rewrite bind_run;
        rewrite (surjective_pairing (mapM _ raw st)), (IH Hex);
        reflexivity. }
    specialize (Hm s).
    destruct (mapM _ raw s) as [s1 [args|e]]; cbn [snd] in Hm;
      [discriminate|]. cbn [snd]. inversion Hm. reflexivity.
Qed.

(** ** More on [_add_attribute] *)

(** X7.  On the Caffe2 branch (the value is a tensor, [aten] is true and
    the export falls back to ATen for Caffe2) [_add_attribute] never
    passes the tensor on: with one element, the element [t[0]] goes to
    [f_] when it is a float and to [i_] otherwise, whatever the type code
    of the key; with more than one element [ValueError] is raised, and
    with none [AssertionError], before any native call. *)
Theorem add_attribute_caffe2_branch (n : node) (key name kind : string)
    (t : tensor) (aten : pyval) (s : state) :
  attr_match key = Some (name, kind) ->
  caffe2_path aten (PTensor t) = true ->
  ((1 < numel t)%Z ->
   _add_attribute n key (PTensor t) aten s =
   (s, Raise (ValueError tensor_attribute_msg))) /\
  (numel t = 1%Z ->
   _add_attribute n key (PTensor t) aten s =
   (after_setter s n (if is_float (getitem0 t) then "f_" else "i_")
      name (getitem0 t),
    Ok (PNode n))) /\
  ((numel t < 1)%Z ->
   _add_attribute n key (PTensor t) aten s = (s, Raise AssertionError)).
Proof.
  intros Hm Hc. unfold caffe2_path in Hc. cbn [is_Tensor] in Hc.
  rewrite andb_true_r in Hc.
  unfold _add_attribute. rewrite Hm, Hc, bind_run. unfold _scalar.
  split; [|split]; intros Hn.
  - apply Z.gtb_lt in Hn. now rewrite Hn.
  - rewrite Hn. cbn [Z.gtb Z.compare Pos.compare Pos.compare_cont Z.eqb
                     Pos.eqb].
    rewrite bind_run. cbn [ret fst snd]. rewrite call_setter_run.
    destruct (is_float (getitem0 t)); reflexivity.
  - assert (H1 : Z.gtb (numel t) 1 = false).
    { destruct (Z.gtb (numel t) 1) eqn:E; [|reflexivity].
      apply Z.gtb_lt in E. lia. }
    assert (H2 : Z.eqb (numel t) 1 = false) by (apply Z.eqb_neq; lia).
    rewrite H1, bind_run, H2. reflexivity.
Qed.

Lemma type_code_setters (kind : string) :
  In kind type_codes ->
  In (kind ++ "_")%string setter_names /\
  In (kind ++ "s_")%string setter_names.
Proof.
  intros H. unfold setter_names. split; apply in_or_app; [left|right].
  - exact (in_map (fun k => (k ++ "_")%string) _ _ H).
  - exact (in_map (fun k => (k ++ "s_")%string) _ _ H).
Qed.

(** X8.  A call of [_add_attribute] that returns has made exactly one
    native call: a call, on its node, of one of the fourteen setters
    ([i_], [f_], [s_], [t_], [g_], [z_], [ty_] and their plurals), with a
    name that is not empty; the state is otherwise unchanged and the node
    is returned. *)
Theorem add_attribute_one_setter (n : node) (key : string)
    (value aten : pyval) (s s' : state) (r : pyval) :
  _add_attribute n key value aten s = (s', Ok r) ->
  exists (setter name : string) (v : pyval),
    s' = after_setter s n setter name v /\
    In setter setter_names /\ name <> EmptyString /\
    (caffe2_path aten value = false -> v = value) /\
    r = PNode n.
Proof.
  intros H.
  assert (Hr : r = PNode n).
  { destruct (add_attribute_cases n key value aten s)
      as [(a & b & c & E)|(e & E & _)]; rewrite E in H;
      [now inversion H|discriminate]. }
  apply add_attribute_ok in H.
  destruct H as (e & -> & name & kind & Hm & He).
  apply attr_match_iff in Hm. destruct Hm as (Hne & _ & Hk & _).
  destruct (type_code_setters kind Hk) as [S1 S2].
  destruct (caffe2_path aten value).
  - destruct He as (t & -> & _ & ->).
    eexists. exists name. eexists. split; [reflexivity|].
    split; [|split; [exact Hne|split; [discriminate|exact Hr]]].
    unfold setter_names, type_codes. destruct (is_float (getitem0 t));
      cbn; auto 10.
  - subst e. eexists. exists name, value. split; [reflexivity|].
    split; [|split; [exact Hne|split; [reflexivity|exact Hr]]].
    destruct (_is_onnx_list value); assumption.
Qed.

Lemma rev_key (name suffix : string) :
  rev (list_ascii_of_string (name ++ suffix)) =
  rev (list_ascii_of_string suffix) ++ rev (list_ascii_of_string name).
Proof. now rewrite list_ascii_of_string_app, rev_app_distr. Qed.

(** X9.  The plural of a type code cannot be written in the key: a key
    that ends in [_is], [_fs], [_ss], [_ts], [_gs], [_zs] or [_tys] is not
    accepted, whatever comes before, and [_add_attribute] raises
    [ValueError] for it without a native call.  The plural setters are
    reached through list-like values only. *)
Theorem plural_suffix_rejected (name k : string) :
  In k plural_codes ->
  attr_match (name ++ "_" ++ k) = None /\
  forall (n : node) (value aten : pyval) (s : state),
    _add_attribute n (name ++ "_" ++ k) value aten s =
    (s, Raise (ValueError (invalid_attribute_msg (name ++ "_" ++ k)))).
Proof.
  intros Hk.
  assert (Hm : attr_match (name ++ "_" ++ k) = None).
  { destruct (attr_match (name ++ "_" ++ k)) as [[n' k']|] eqn:E;
      [|reflexivity].
    exfalso. apply attr_match_iff in E.
    destruct E as (_ & _ & Hk' & Hkey).
    unfold plural_codes, type_codes in Hk. cbn [map In] in Hk.
    unfold type_codes in Hk'. cbn [In] in Hk'.
    assert (Hrev :
      rev (list_ascii_of_string ("_" ++ k)) ++
      rev (list_ascii_of_string name) =
      rev (list_ascii_of_string ("_" ++ k')) ++
      rev (list_ascii_of_string n') \/
      rev (list_ascii_of_string ("_" ++ k)) ++
      rev (list_ascii_of_string name) =
      rev (list_ascii_of_string ("_" ++ k' ++ nl)) ++
      rev (list_ascii_of_string n')).
    { destruct Hkey as [Hkey|Hkey]; [left|right];
        rewrite <- !rev_key; now rewrite Hkey. }
    repeat (destruct Hk as [Hk|Hk]; [subst k|]); try contradiction;
      repeat (destruct Hk' as [Hk'|Hk']; [subst k'|]); try contradiction;
      destruct Hrev as [Hrev|Hrev]; cbn in Hrev; discriminate. }
  split; [exact Hm|].
  intros n value aten s. unfold _add_attribute. now rewrite Hm.
Qed.

(** ** [aten_op] and [block_op] *)

Lemma Forall2_in_left (A B : Type) (R : A -> B -> Prop) (l : list A)
    (l' : list B) (x : A) :
  Forall2 R l l' -> In x l -> exists y, In y l' /\ R x y.
Proof.
  induction 1 as [|a b l l' Hab Hf IH]; intros Hin; [contradiction|].
  destruct Hin as [->|Hin].
  - exists b. split; [now left|exact Hab].
  - destruct (IH Hin) as (y & Hy & Hr). exists y. split; [now right|exact Hr].
Qed.

Lemma dict_del_intro (k k' : string) (v : pyval) (d : dict) :
  In (k', v) d -> k' <> k -> In (k', v) (dict_del k d).
Proof.
  intros Hin Hk. unfold dict_del. apply filter_In. split; [exact Hin|].
  cbn [fst]. apply negb_true_iff. apply String.eqb_neq. congruence.
Qed.

Lemma sorted_del_intro (k : string) (v : pyval) (d : dict) :
  In (k, v) d -> k <> "inplace"%string ->
  In (k, v) (dict_del "inplace" (sorted_items d)).
Proof.
  intros Hin Hk. apply dict_del_intro; [|exact Hk].
  apply (Permutation_in _ (Permutation_sym (sorted_items_perm d))).
  exact Hin.
Qed.

Lemma applied_items_intro (kw : dict) (k : string) (v : pyval) :
  In (k, v) kw -> k <> "inplace"%string -> k <> "aten"%string ->
  In (k, v) (applied_items kw).
Proof.
  intros Hin H1 H2. unfold applied_items. apply sorted_del_intro; [|exact H1].
  unfold dict_pop. destruct (dict_get "aten" kw); cbn [snd];
    [now apply dict_del_intro|exact Hin].
Qed.

Lemma not_None_items_intro (k : string) (v : pyval) (kwargs : dict) :
  In (k, v) kwargs -> is_None v = false -> In (k, v) (not_None_items kwargs).
Proof.
  intros Hin Hv. unfold not_None_items. apply filter_In.
  split; [exact Hin|]. cbn [snd]. now rewrite Hv.
Qed.

Lemma setter_call_plain (aten : pyval) (n : nat) (k name kind : string)
    (v : pyval) (e : event) :
  setter_call aten n k v e ->
  attr_match k = Some (name, kind) ->
  is_Tensor v = false -> _is_onnx_list v = false ->
  e = SetAttr n (kind ++ "_") name v.
Proof.
  intros (name' & kind' & Hm & He) Hm' Ht Hl.
  rewrite Hm' in Hm. inversion Hm; subst name' kind'.
  unfold caffe2_path in He. rewrite Ht, andb_false_r, Hl in He. exact He.
Qed.

Lemma bind_aten_kwargs_cases (operator overload_name : string)
    (kwargs : dict) (s : state) :
  (exists msg,
     bind_aten_kwargs operator overload_name kwargs s =
     (s, Raise (TypeError msg))) \/
  (exists (outputs : Z) (kw : dict),
     bind_aten_kwargs operator overload_name kwargs s =
     (s, Ok (outputs,
             [("operator_s"%string, PStr operator);
              ("overload_name_s"%string, PStr overload_name)] ++ kw)) /\
     dict_mem "operator_s" kwargs = false /\
     dict_mem "overload_name_s" kwargs = false).
Proof.
  unfold bind_aten_kwargs.
  destruct (dict_mem "operator_s" kwargs); [left; eexists; reflexivity|].
  destruct (dict_mem "overload_name_s" kwargs);
    [left; eexists; reflexivity|].
  destruct (dict_mem "g" kwargs); [left; eexists; reflexivity|].
  destruct (dict_mem "opname" kwargs); [left; eexists; reflexivity|].
  destruct (dict_get "outputs" kwargs) as [v|];
    [destruct v|];
    try (left; eexists; reflexivity);
    right; eexists; eexists; (split; [reflexivity|]); split; reflexivity.
Qed.

(** X10.  When [aten_op] returns, it has created a node of kind
    [aten::ATen] and called its string setter [s_] for [operator] and for
    [overload_name], with the strings it was given; the keyword arguments
    held neither [operator_s] nor [overload_name_s].  [GraphContext.at]
    is [aten_op] on the graph of the context. *)
Theorem aten_op_node :
  (forall (g : nat) (operator : string) (args : list pyval)
          (overload_name : string) (kwargs : dict) (s s' : state)
          (r : pyval),
     aten_op g operator args overload_name kwargs s = (s', Ok r) ->
     exists (n : nat) (inputs : list pyval) (outputs : Z),
       In (Create g n "aten::ATen" inputs outputs) (trace s') /\
       In (SetAttr n "s_" "operator" (PStr operator)) (trace s') /\
       In (SetAttr n "s_" "overload_name" (PStr overload_name))
          (trace s') /\
       r = op_result outputs (mkNode n (Z.to_nat outputs)) /\
       dict_mem "operator_s" kwargs = false /\
       dict_mem "overload_name_s" kwargs = false) /\
  (forall (self : GraphContext) (operator : string) (args : list pyval)
          (overload_name : string) (kwargs : dict) (s : state),
     at_ self operator args overload_name kwargs s =
     aten_op (graph self) operator args overload_name kwargs s).
Proof.
  split; [|reflexivity].
  intros g operator args overload_name kwargs s s' r H.
  unfold aten_op in H. rewrite bind_run in H.
  destruct (bind_aten_kwargs_cases operator overload_name kwargs s)
    as [(msg & Hb)|(outputs & kw & Hb & H1 & H2)]; rewrite Hb in H;
    [discriminate|].
  cbn [fst snd] in H. apply graph_op_ok in H.
  destruct H as (inputs & evs1 & attrs & n & _ & -> & -> & Hf).
  exists n, inputs, outputs. cbn [trace].
  assert (Hattr : forall e, In e attrs ->
            In e (trace s ++ evs1 ++
                  Create g n (op_kind "aten::ATen") inputs outputs ::
                  attrs ++ InsertNode g n :: infer_events n)).
  { intros e He. apply in_or_app. right. apply in_or_app. right. right.
    apply in_or_app. now left. }
  assert (Hitem : forall k v,
            In (k, PStr v)
               ([("operator_s"%string, PStr operator);
                 ("overload_name_s"%string, PStr overload_name)] ++ kw) ->
            k <> "inplace"%string -> k <> "aten"%string ->
            forall name kind, attr_match k = Some (name, kind) ->
            In (SetAttr n (kind ++ "_") name (PStr v)) attrs).
  { intros k v Hin Hk1 Hk2 name kind Hm.
    apply not_None_items_intro in Hin; [|reflexivity].
    apply applied_items_intro in Hin; [|exact Hk1|exact Hk2].
    destruct (Forall2_in_left _ _ _ _ _ _ Hf Hin) as (e & He & Hc).
    cbn [fst snd] in Hc.
    rewrite <- (setter_call_plain _ _ _ _ _ _ _ Hc Hm); auto. }
  split; [|split; [|split; [|split; [reflexivity|split; assumption]]]].
  - apply in_or_app. right. apply in_or_app. right. now left.
  - apply Hattr.
    exact (Hitem "operator_s"%string operator (or_introl eq_refl)
             ltac:(discriminate) ltac:(discriminate)
             "operator"%string "s"%string eq_refl).
  - apply Hattr.
    exact (Hitem "overload_name_s"%string overload_name
             (or_intror (or_introl eq_refl))
             ltac:(discriminate) ltac:(discriminate)
             "overload_name"%string "s"%string eq_refl).
Qed.

Lemma addNode_run (b : nat) (kind : string) (args : list pyval)
    (s : state) :
  addNode b kind args s =
  (mkState (S (fresh s)) (trace s ++ [AddNode b (fresh s) kind args]),
   Ok (mkNode (fresh s) addNode_outputs)).
Proof. reflexivity. Qed.

Lemma block_op_ok (b : nat) (opname : string) (args : list pyval)
    (kwargs : dict) (s s' : state) (r : pyval) :
  block_op b opname args kwargs s = (s', Ok r) ->
  exists attrs : list event,
    s' = mkState (S (fresh s))
           (trace s ++
            AddNode b (fresh s) (block_kind opname kwargs) args :: attrs) /\
    Forall2 (fun kv e =>
               setter_call (block_aten opname kwargs) (fresh s)
                 (fst kv) (snd kv) e)
            (block_items opname kwargs) attrs /\
    r = block_result (mkNode (fresh s) addNode_outputs).
Proof.
  unfold block_op, block_kind, block_aten, block_items, popped_aten.
  intros H.
  assert (Hrun : forall kind items aten,
    (n <- addNode b kind args ;;
     add_attributes n items aten ;;;
     (let outputs := node_outputs_list n in
      if Nat.eqb (length outputs) 1 then ret (node_output n)
      else ret (PTuple outputs))) s = (s', Ok r) ->
    exists attrs : list event,
      s' = mkState (S (fresh s))
             (trace s ++ AddNode b (fresh s) kind args :: attrs) /\
      Forall2 (fun kv e => setter_call aten (fresh s) (fst kv) (snd kv) e)
              (dict_del "inplace" items) attrs /\
      r = block_result (mkNode (fresh s) addNode_outputs)).
  { intros kind items aten Hr.
    rewrite bind_run, addNode_run in Hr.
    rewrite bind_run, add_attributes_apply_all in Hr.
    destruct (apply_all _ _ _ _) as [s2 [u|e]] eqn:E; [|discriminate].
    apply apply_all_ok in E. destruct E as (attrs & -> & Hf).
    cbn [fresh trace node_id] in *.
    exists attrs. split; [|split; [exact Hf|]].
    - rewrite <- app_assoc in Hr. cbv zeta in Hr.
      destruct (Nat.eqb _ 1); inversion Hr; reflexivity.
    - unfold block_result. cbv zeta in Hr.
      destruct (Nat.eqb _ 1); now inversion Hr. }
  destruct (contains_sep opname).
  - exact (Hrun _ _ _ H).
  - destruct (dict_pop "aten" (PBool false) kwargs) as [aten kw].
    cbn [fst snd]. exact (Hrun _ _ _ H).
Qed.

(** X11.  When [block_op] returns, it has added one node to the block, of
    the kind [opname] when that holds ["::"] and otherwise [aten::opname]
    or [onnx::opname] as the popped [aten] is true or not, and then called
    one setter for each keyword argument other than [inplace] (and [aten],
    where it is popped), in the sorted order of the keys.  Nothing is
    inserted in the graph and no inference is run; the result is the
    output of the node when it has one output and the tuple of its outputs
    otherwise. *)
Theorem block_op_calls (b : nat) (opname : string) (args : list pyval)
    (kwargs : dict) (s s' : state) (r : pyval) :
  block_op b opname args kwargs s = (s', Ok r) ->
  exists attrs : list event,
    fresh s' = S (fresh s) /\
    trace s' =
      trace s ++
      AddNode b (fresh s) (block_kind opname kwargs) args :: attrs /\
    Forall2 (fun kv e =>
               setter_call (block_aten opname kwargs) (fresh s)
                 (fst kv) (snd kv) e)
            (block_items opname kwargs) attrs /\
    StronglySorted key_le (block_items opname kwargs) /\
    (addNode_outputs = 1 -> r = PValue (fresh s) 0) /\
    (addNode_outputs <> 1 ->
     r = PTuple (map (PValue (fresh s)) (seq 0 addNode_outputs))).
Proof.
  intros H. apply block_op_ok in H. destruct H as (attrs & -> & Hf & ->).
  exists attrs. cbn [fresh trace]. split; [reflexivity|].
  split; [reflexivity|]. split; [exact Hf|]. split.
  - apply strongly_sorted_filter, sorted_items_sorted.
  - unfold block_result, node_outputs_list, node_output.
    cbn [node_id node_outputs]. rewrite length_map, length_seq.
    split; intros Ho.
    + now rewrite Ho.
    + apply Nat.eqb_neq in Ho. now rewrite Ho.
Qed.

(** X12.  Unlike [graph_op], [block_op] does not drop the keyword
    arguments that are [None]: when it returns, an attribute given as
    [None] has been passed to the setter of its type code, with the value
    [None]. *)
Theorem block_op_keeps_None (b : nat) (opname : string) (args : list pyval)
    (kwargs : dict) (s s' : state) (r : pyval) (k : string) :
  block_op b opname args kwargs s = (s', Ok r) ->
  In (k, PNone) kwargs ->
  k <> "inplace"%string ->
  (contains_sep opname = false -> k <> "aten"%string) ->
  exists name kind : string,
    attr_match k = Some (name, kind) /\
    In (SetAttr (fresh s) (kind ++ "_") name PNone) (trace s').
Proof.
  intros H Hin Hk1 Hk2. apply block_op_ok in H.
  destruct H as (attrs & -> & Hf & _).
  assert (Hitem : In (k, PNone) (block_items opname kwargs)).
  { unfold block_items. apply sorted_del_intro; [|exact Hk1].
    destruct (contains_sep opname); [exact Hin|].
    unfold dict_pop. destruct (dict_get "aten" kwargs); cbn [snd];
      [apply dict_del_intro; [exact Hin|now apply Hk2]|exact Hin]. }
  destruct (Forall2_in_left _ _ _ _ _ _ Hf Hitem) as (e & He & Hc).
  cbn [fst snd] in Hc.
  pose proof Hc as (name & kind & Hm & _).
  exists name, kind. split; [exact Hm|].
  rewrite <- (setter_call_plain _ _ _ _ _ _ _ Hc Hm eq_refl eq_refl).
  cbn [trace]. apply in_or_app. right. now right.
Qed.

Lemma dict_mem_in (k : string) (d : dict) :
  dict_mem k d = true -> exists v, In (k, v) d.
Proof.
  induction d as [|[k' v'] d IH]; [discriminate|].
  cbn [dict_mem]. destruct (String.eqb_spec k k') as [->|Hk].
  - intros _. exists v'. now left.
  - intros H. destruct (IH H) as (v & Hv). exists v. now right.
Qed.

(** X13.  [block_op] does not pop [aten] when the operator name holds
    ["::"]: the keyword [aten] is then treated as an attribute, its key is
    not accepted, and the call never returns. *)
Theorem block_op_qualified_aten (b : nat) (opname : string)
    (args : list pyval) (kwargs : dict) (s : state) :
  contains_sep opname = true ->
  dict_mem "aten" kwargs = true ->
  exists s' e, block_op b opname args kwargs s = (s', Raise e).
Proof.
  intros Hc Hm.
  destruct (block_op b opname args kwargs s) as [s' [r|e]] eqn:E;
    [|eauto].
  exfalso. apply block_op_ok in E. destruct E as (attrs & _ & Hf & _).
  destruct (dict_mem_in _ _ Hm) as (v & Hv).
  assert (Hitem : In ("aten"%string, v) (block_items opname kwargs)).
  { unfold block_items. rewrite Hc.
    apply sorted_del_intro; [exact Hv|discriminate]. }
  destruct (Forall2_in_left _ _ _ _ _ _ Hf Hitem)
    as (e & _ & name & kind & Hmatch & _).
  cbn [fst] in Hmatch. discriminate.
Qed.

(** ** [graph_constant] *)

Lemma lower_char_idem (c : ascii) : lower_char (lower_char c) = lower_char c.
Proof. destruct c as [[] [] [] [] [] [] [] []]; reflexivity. Qed.

Lemma str_lower_idem (s : string) : str_lower (str_lower s) = str_lower s.
Proof.
  induction s as [|c s IH]; [reflexivity|].
  cbn [str_lower]. now rewrite lower_char_idem, IH.
Qed.

Lemma graph_constant_run (g : nat) (value : pyval) (dims : dims_arg)
    (ty : string) (args : list pyval) (kwargs : dict) (s : state) :
  is_Number value = true ->
  graph_constant g value dims (Some ty) args kwargs s =
  if bad_dims dims then (s, Raise (TypeError not_iterable_msg))
  else
    match tensor_ctor (str_lower ty) with
    | None => (s, Raise (ValueError unknown_type_msg))
    | Some ctor =>
        (ok <- bind_op_kwargs
                 (if scalar_dims dims then "value_z" else "value_t")
                 (PTensor (fill_ (new_tensor ctor (const_dims dims)) value))
                 kwargs ;;
         graph_op g "Constant" args (fst ok) (snd ok)) s
    end.
Proof.
  intros Hn. unfold graph_constant. rewrite Hn. cbn [negb].
  rewrite bind_run.
  assert (Hcore : forall (dm : list Z) (sc : bool),
    (let dims0 := fst (dm, sc) in
     let isscalar := snd (dm, sc) in
     let type_ := str_lower ty in
     tensor <-
       (if String.eqb type_ "char"
        then ret (new_tensor "CharTensor" dims0)
        else if String.eqb type_ "short"
        then ret (new_tensor "ShortTensor" dims0)
        else if String.eqb type_ "int"
        then ret (new_tensor "IntTensor" dims0)
        else if String.eqb type_ "long"
        then ret (new_tensor "LongTensor" dims0)
        else if String.eqb type_ "half"
        then ret (new_tensor "HalfTensor" dims0)
        else if String.eqb type_ "float"
        then ret (new_tensor "FloatTensor" dims0)
        else if String.eqb type_ "double"
        then ret (new_tensor "DoubleTensor" dims0)
        else raise (ValueError unknown_type_msg)) ;;
     let tensor := fill_ tensor value in
     ok <- bind_op_kwargs (if isscalar then "value_z" else "value_t")
             (PTensor tensor) kwargs ;;
     graph_op g "Constant" args (fst ok) (snd ok)) s =
    match tensor_ctor (str_lower ty) with
    | None => (s, Raise (ValueError unknown_type_msg))
    | Some ctor =>
        (ok <- bind_op_kwargs (if sc then "value_z" else "value_t")
                 (PTensor (fill_ (new_tensor ctor dm) value)) kwargs ;;
         graph_op g "Constant" args (fst ok) (snd ok)) s
    end).
  { intros dm sc. cbv zeta. cbn [fst snd]. unfold tensor_ctor.
    rewrite bind_run.
    repeat match goal with
      | |- context [String.eqb (str_lower ty) ?x] =>
          destruct (String.eqb (str_lower ty) x); [reflexivity|]
      end.
    reflexivity. }
  destruct dims as [|z|l]; cbn [bad_dims scalar_dims const_dims].
  - apply Hcore.
  - destruct (Z.eqb z 0); cbn [negb]; [apply Hcore|reflexivity].
  - destruct (set_is_zero l); apply Hcore.
Qed.

Lemma tensor_ctor_none (ty : string) :
  tensor_ctor ty = None <-> ~ In ty scalar_types.
Proof.
  unfold tensor_ctor, scalar_types. cbn [In].
  repeat match goal with
    | |- context [String.eqb ty ?x] =>
        destruct (String.eqb_spec ty x);
          [split; [discriminate|intros H; exfalso; apply H; auto 10]|]
    end.
  split; [|reflexivity].
  intros _ H.
  repeat (destruct H as [H|H]; [congruence|]). exact H.
Qed.

(** X14.  [graph_constant] checks its arguments before it touches the
    graph: a value that is not a number or a type specifier that is
    [None] raises [AssertionError]; then an int [dims] other than 0 raises
    [TypeError]; then a type specifier that is none of the seven names,
    compared in lower case, raises [ValueError].  In each case no native
    call has been made. *)
Theorem graph_constant_checks (g : nat) (value : pyval) (dims : dims_arg)
    (type_ : option string) (args : list pyval) (kwargs : dict)
    (s : state) :
  (is_Number value = false \/ type_ = None ->
   graph_constant g value dims type_ args kwargs s =
   (s, Raise AssertionError)) /\
  (forall ty, is_Number value = true -> type_ = Some ty ->
     bad_dims dims = true ->
     graph_constant g value dims type_ args kwargs s =
     (s, Raise (TypeError not_iterable_msg))) /\
  (forall ty, is_Number value = true -> type_ = Some ty ->
     bad_dims dims = false -> ~ In (str_lower ty) scalar_types ->
     graph_constant g value dims type_ args kwargs s =
     (s, Raise (ValueError unknown_type_msg))).
Proof.
  split; [|split].
  - intros [Hn| ->]; unfold graph_constant.
    + now rewrite Hn.
    + destruct (is_Number value); reflexivity.
  - intros ty Hn -> Hd. rewrite graph_constant_run by exact Hn.
    now rewrite Hd.
  - intros ty Hn -> Hd Hty. rewrite graph_constant_run by exact Hn.
    rewrite Hd. apply tensor_ctor_none in Hty. now rewrite Hty.
Qed.

Lemma attr_match_value_t : attr_match "value_t" = Some ("value", "t")%string.
Proof. reflexivity. Qed.

Lemma constant_attr_run (g : nat) (key kind : string) (t : tensor)
    (s : state) :
  attr_match key = Some ("value"%string, kind) ->
  String.eqb "aten" key = false -> String.eqb "inplace" key = false ->
  String.eqb "g" key = false -> String.eqb "namespace" key = false ->
  String.eqb "op" key = false -> String.eqb "outputs" key = false ->
  graph_op g "Constant" [] 1 [(key, PTensor t)] s =
  (mkState (S (fresh s))
     (trace s ++
      [Create g (fresh s) "onnx::Constant" [] 1;
       SetAttr (fresh s) (kind ++ "_") "value" (PTensor t);
       InsertNode g (fresh s)] ++ infer_events (fresh s)),
   Ok (PValue (fresh s) 0)).
Proof.
  intros Hm H1 H2 H3 H4 H5 H6.
  unfold graph_op. rewrite graph_op_run. cbn [mapM ret].
  unfold not_None_items. cbn [filter snd is_None negb].
  unfold graph_op_finish. cbn [contains_sep ret fst snd].
  unfold bind_new_node_kwargs. cbn [dict_mem]. rewrite H3, H4, H5, H6.
  cbn [ret]. rewrite new_node_run.
  unfold dict_pop. cbn [dict_get]. rewrite H1.
  cbn [fst snd sorted_items insert_item].
  unfold dict_del. cbn [filter fst]. rewrite H2. cbn [negb].
  cbn [apply_all]. rewrite bind_run.
  rewrite (add_attribute_off_caffe2 _ _ _ _ _ _ _ Hm) by reflexivity.
  cbv [ret after_setter op_result node_output].
  cbn [fresh trace node_id Z.eqb Pos.eqb _is_onnx_list is_string is_Tensor
       is_Iterable negb andb].
  rewrite <- !app_assoc. reflexivity.
Qed.

(** X15.  For a number, a known type name and [dims] that is not an int
    other than 0, [graph_constant] without keyword arguments is
    [g.op("Constant", *args)] with one attribute: the tensor of the
    constructor of the type, filled with the value, under [value_z] with
    the dimensions [[1]] when [dims] is [None], [0] or a list of zeros
    that is not empty, and under [value_t] with the dimensions [dims]
    otherwise.  Without positional arguments this creates the node, calls
    [z_] or [t_] with the name [value], inserts the node and returns its
    output. *)
Theorem graph_constant_node (g : nat) (value : pyval) (dims : dims_arg)
    (ty ctor : string) (args : list pyval) (s : state) :
  is_Number value = true ->
  bad_dims dims = false ->
  tensor_ctor (str_lower ty) = Some ctor ->
  let t := fill_ (new_tensor ctor (const_dims dims)) value in
  graph_constant g value dims (Some ty) args [] s =
  graph_op g "Constant" args 1
    [((if scalar_dims dims then "value_z" else "value_t")%string,
      PTensor t)] s /\
  graph_constant g value dims (Some ty) [] [] s =
  (mkState (S (fresh s))
     (trace s ++
      [Create g (fresh s) "onnx::Constant" [] 1;
       SetAttr (fresh s) (if scalar_dims dims then "z_" else "t_")
         "value" (PTensor t);
       InsertNode g (fresh s)] ++ infer_events (fresh s)),
   Ok (PValue (fresh s) 0)).
Proof.
  intros Hn Hd Hc t.
  assert (Heq : forall a,
    graph_constant g value dims (Some ty) a [] s =
    graph_op g "Constant" a 1
      [((if scalar_dims dims then "value_z" else "value_t")%string,
        PTensor t)] s).
  { intros a. rewrite graph_constant_run by exact Hn. rewrite Hd, Hc.
    destruct (scalar_dims dims); reflexivity. }
  split; [apply Heq|]. rewrite Heq.
  destruct (scalar_dims dims).
  - now rewrite (constant_attr_run g "value_z"%string "z"%string t s
                   attr_match_value_z).
  - now rewrite (constant_attr_run g "value_t"%string "t"%string t s
                   attr_match_value_t).
Qed.

(** X16.  The type specifier of [graph_constant] is read without regard
    to case: a specifier and its lower-case form give the same run. *)
Theorem graph_constant_type_case (g : nat) (value : pyval)
    (dims : dims_arg) (ty : string) (args : list pyval) (kwargs : dict)
    (s : state) :
  graph_constant g value dims (Some ty) args kwargs s =
  graph_constant g value dims (Some (str_lower ty)) args kwargs s.
Proof.
  destruct (is_Number value) eqn:Hn.
  - rewrite !graph_constant_run by exact Hn. now rewrite str_lower_idem.
  - unfold graph_constant. now rewrite Hn.
Qed.

(** ** The order in which keyword arguments are given *)












(** X18.  An operator name that holds ["::"] more than once cannot be
    unpacked into a namespace and a name: [graph_op] raises [ValueError]
    for it, whatever the keyword arguments are, after the positional
    arguments have been wrapped and before any node of its own is
    created. *)
Theorem graph_op_opname_parts (g : nat) (opname : string)
    (raw : list pyval) (outputs : Z) (kwargs : dict) (s : state) :
  2 < length (split_sep opname) ->
  graph_op g opname raw outputs kwargs s =
  (let '(args, evs, n) := wrap_args g (fresh s) raw in
   (mkState n (trace s ++ evs), Raise (ValueError unpack_msg))).
Proof.
  intros Hl. unfold graph_op. rewrite graph_op_unfold.
  destruct (wrap_args g (fresh s) raw) as [[args evs] n].
  unfold graph_op_finish.
  destruct (contains_sep opname) eqn:Hc.
  - destruct (split_sep opname) as [|a [|b [|c l]]]; cbn in Hl; try lia.
    reflexivity.
  - unfold split_sep in Hl.
    rewrite (split_no_sep (String.length opname) opname EmptyString
               (le_n _) Hc) in Hl.
    cbn in Hl. lia.
Qed.

(** ** The runs of the attribute loop *)

Lemma apply_all_run (n : node) (aten : pyval) (items : dict) (s : state) :
  Forall (fun kv => attr_ok aten (fst kv) (snd kv)) items ->
  exists evs : list event,
    apply_all n items aten s = (mkState (fresh s) (trace s ++ evs), Ok tt) /\
    Forall2 (fun kv e => setter_call aten (node_id n) (fst kv) (snd kv) e)
            items evs.
Proof.
  intros Hf. destruct (apply_all_returns n aten items Hf s) as (s' & H).
  destruct (apply_all_ok n aten items s s' tt H) as (evs & E & Hs).
  exists evs. split; [now rewrite H, E|exact Hs].
Qed.

Lemma apply_all_raise (n : node) (aten : pyval) (items : dict) :
  forall (s s' : state) (e : exn),
    apply_all n items aten s = (s', Raise e) ->
    exists (applied : dict) (k : string) (v : pyval) (rest : dict)
           (evs : list event),
      items = applied ++ (k, v) :: rest /\
      s' = mkState (fresh s) (trace s ++ evs) /\
      Forall2 (fun kv e => setter_call aten (node_id n) (fst kv) (snd kv) e)
              applied evs /\
      attr_error aten k v e.
Proof.
  induction items as [|[k v] items IH]; intros s s' e H.
  - discriminate.
  - cbn [apply_all] in H. rewrite bind_run in H.
    destruct (_add_attribute n k v aten s) as [s1 [r|e1]] eqn:E.
    + apply add_attribute_ok in E. destruct E as (e0 & -> & He0).
      apply IH in H.
      destruct H as (applied & k' & v' & rest & evs & -> & -> & Hf & He).
      exists ((k, v) :: applied), k', v', rest, (e0 :: evs).
      cbn [fresh trace]. split; [reflexivity|].
      split; [now rewrite <- app_assoc|].
      split; [constructor; assumption|exact He].
    + inversion H; subst s1 e1; clear H.
      destruct (add_attribute_cases n k v aten s)
        as [(setter & name & v' & H1)|(e' & H1 & He)]; rewrite H1 in E;
        [discriminate|].
      inversion E; subst s' e'; clear E.
      exists [], k, v, items, []. split; [reflexivity|].
      split; [now rewrite app_nil_r, state_eta|].
      split; [constructor|exact He].
Qed.

Lemma setter_calls_ok (aten : pyval) (n : nat) (items : dict)
    (evs : list event) :
  Forall2 (fun kv e => setter_call aten n (fst kv) (snd kv) e) items evs ->
  Forall (fun kv => attr_ok aten (fst kv) (snd kv)) items.
Proof.
  induction 1 as [|kv e items evs H Hf IH]; constructor; [|exact IH].
  exact (setter_call_ok _ _ _ _ _ H).
Qed.

(** ** The key [inplace] *)

Lemma insert_item_least (kv : string * pyval) (l : dict) :
  Forall (key_le kv) l -> insert_item kv l = kv :: l.
Proof.
  intros H. destruct l as [|kv' l]; [reflexivity|].
  inversion H as [|x l0 Hle _]; subst. cbn [insert_item].
  unfold key_le in Hle. now rewrite Hle.
Qed.

Lemma dict_del_insert (k : string) (kv : string * pyval) (l : dict) :
  StronglySorted key_le l ->
  dict_del k (insert_item kv l) =
  if String.eqb k (fst kv) then dict_del k l
  else insert_item kv (dict_del k l).
Proof.
  unfold dict_del.
  induction 1 as [|kv' l Hs IH Hall].
  - cbn. now destruct (String.eqb k (fst kv)).
  - cbn [insert_item].
    destruct (String.leb (fst kv) (fst kv')) eqn:Hle.
    + assert (Hkv : Forall (key_le kv) (kv' :: l)).
      { constructor; [exact Hle|].
        eapply Forall_impl; [|exact Hall].
        intros x Hx. eapply key_le_trans; [exact Hle|exact Hx]. }
      remember (kv' :: l) as l2 eqn:El2. cbn [filter].
      destruct (String.eqb k (fst kv)); cbn [negb]; [reflexivity|].
      symmetry. apply insert_item_least.
      apply Forall_forall. intros x Hx. apply filter_In in Hx.
      rewrite Forall_forall in Hkv. apply Hkv, Hx.
    + cbn [filter]. rewrite IH.
      destruct (String.eqb k (fst kv)), (negb (String.eqb k (fst kv')));
        try reflexivity.
      cbn [insert_item]. now rewrite Hle.
Qed.

Lemma dict_del_sorted (k : string) (d : dict) :
  dict_del k (sorted_items d) = sorted_items (dict_del k d).
Proof.
  induction d as [|kv d IH]; [reflexivity|].
  cbn [sorted_items]. rewrite dict_del_insert by apply sorted_items_sorted.
  unfold dict_del in *. cbn [filter].
  destruct (String.eqb k (fst kv)); cbn [negb]; [exact IH|].
  cbn [sorted_items]. now rewrite IH.
Qed.

Lemma dict_get_other (k k' : string) (v : pyval) (kw1 kw2 : dict) :
  String.eqb k k' = false ->
  dict_get k (kw1 ++ (k', v) :: kw2) = dict_get k (kw1 ++ kw2).
Proof.
  intros Hk. induction kw1 as [|[k0 v0] kw1 IH]; cbn [app dict_get].
  - now rewrite Hk.
  - now rewrite IH.
Qed.

Lemma dict_del_middle (k : string) (v : pyval) (kw1 kw2 : dict) :
  dict_del k (kw1 ++ (k, v) :: kw2) = dict_del k (kw1 ++ kw2).
Proof.
  unfold dict_del. rewrite !filter_app. cbn [filter fst].
  now rewrite String.eqb_refl.
Qed.

Lemma dict_del_comm (k k' : string) (d : dict) :
  dict_del k (dict_del k' d) = dict_del k' (dict_del k d).
Proof.
  unfold dict_del. induction d as [|kv d IH]; [reflexivity|].
  cbn [filter].
  destruct (negb (String.eqb k' (fst kv))) eqn:E1,
           (negb (String.eqb k (fst kv))) eqn:E2;
    cbn [filter]; rewrite ?E1, ?E2, IH; reflexivity.
Qed.

Lemma pop_aten_inplace (v : pyval) (kw1 kw2 : dict) :
  fst (dict_pop "aten" (PBool false) (kw1 ++ ("inplace"%string, v) :: kw2)) =
  fst (dict_pop "aten" (PBool false) (kw1 ++ kw2)) /\
  dict_del "inplace"
    (snd (dict_pop "aten" (PBool false)
            (kw1 ++ ("inplace"%string, v) :: kw2))) =
  dict_del "inplace" (snd (dict_pop "aten" (PBool false) (kw1 ++ kw2))).
Proof.
  unfold dict_pop.
  rewrite (dict_get_other "aten" "inplace" v kw1 kw2) by reflexivity.
  destruct (dict_get "aten" (kw1 ++ kw2)); cbn [fst snd];
    (split; [reflexivity|]).
  - rewrite !(dict_del_comm "inplace" "aten"). now rewrite dict_del_middle.
  - apply dict_del_middle.
Qed.

Lemma applied_items_inplace (v : pyval) (kw1 kw2 : dict) :
  popped_aten (kw1 ++ ("inplace"%string, v) :: kw2) = popped_aten (kw1 ++ kw2)
  /\
  applied_items (kw1 ++ ("inplace"%string, v) :: kw2) =
  applied_items (kw1 ++ kw2).
Proof.
  destruct (pop_aten_inplace v kw1 kw2) as [H1 H2].
  split; [exact H1|]. unfold applied_items.
  now rewrite !dict_del_sorted, H2.
Qed.

Lemma block_items_inplace (opname : string) (v : pyval) (kw1 kw2 : dict) :
  block_aten opname (kw1 ++ ("inplace"%string, v) :: kw2) =
  block_aten opname (kw1 ++ kw2) /\
  block_items opname (kw1 ++ ("inplace"%string, v) :: kw2) =
  block_items opname (kw1 ++ kw2) /\
  block_kind opname (kw1 ++ ("inplace"%string, v) :: kw2) =
  block_kind opname (kw1 ++ kw2).
Proof.
  destruct (pop_aten_inplace v kw1 kw2) as [H1 H2].
  unfold block_aten, block_items, block_kind, popped_aten.
  rewrite !dict_del_sorted.
  destruct (contains_sep opname).
  - now rewrite dict_del_middle.
  - now rewrite H1, H2.
Qed.

(** ** The runs of [_new_node] and [block_op] *)

Lemma new_node_items (g : nat) (namespace op : string) (outputs : Z)
    (args : list pyval) (kwargs : dict) (s : state) :
  _new_node g namespace op outputs args kwargs s =
  match apply_all (mkNode (fresh s) (Z.to_nat outputs))
          (applied_items kwargs) (popped_aten kwargs)
          (mkState (S (fresh s))
             (trace s ++
              [Create g (fresh s) (namespace ++ "::" ++ op) args outputs]))
  with
  | (s2, Ok _) => (s2, Ok (mkNode (fresh s) (Z.to_nat outputs)))
  | (s2, Raise e) => (s2, Raise e)
  end.
Proof. rewrite new_node_run. reflexivity. Qed.

Lemma block_op_items (b : nat) (opname : string) (args : list pyval)
    (kwargs : dict) (s : state) :
  block_op b opname args kwargs s =
  match apply_all (mkNode (fresh s) addNode_outputs)
          (block_items opname kwargs) (block_aten opname kwargs)
          (mkState (S (fresh s))
             (trace s ++
              [AddNode b (fresh s) (block_kind opname kwargs) args]))
  with
  | (s2, Ok _) =>
      (s2, Ok (block_result (mkNode (fresh s) addNode_outputs)))
  | (s2, Raise e) => (s2, Raise e)
  end.
Proof.
  unfold block_op, block_kind, block_aten, block_items, popped_aten.
  assert (Hrun : forall kind items aten,
    (n <- addNode b kind args ;;
     add_attributes n items aten ;;;
     (let outputs := node_outputs_list n in
      if Nat.eqb (length outputs) 1 then ret (node_output n)
      else ret (PTuple outputs))) s =
    match apply_all (mkNode (fresh s) addNode_outputs)
            (dict_del "inplace" items) aten
            (mkState (S (fresh s))
               (trace s ++ [AddNode b (fresh s) kind args]))
    with
    | (s2, Ok _) =>
        (s2, Ok (block_result (mkNode (fresh s) addNode_outputs)))
    | (s2, Raise e) => (s2, Raise e)
    end).
  { intros kind items aten.
    rewrite bind_run, addNode_run.
    rewrite bind_run, add_attributes_apply_all.
    destruct (apply_all _ _ _ _) as [s2 [u|e]]; [|reflexivity].
    cbv zeta. unfold block_result. now destruct (Nat.eqb _ 1). }
  destruct (contains_sep opname); [apply Hrun|].
  destruct (dict_pop "aten" (PBool false) kwargs) as [aten kw].
  cbn [fst snd]. apply Hrun.
Qed.

(** What a loop over [items] that starts in [s1], after the node [n] was
    made, leaves when it is [run]: all setters called in the order of
    [items] and the result [r], or the setters of the items before the
    first one that [_add_attribute] rejects, and its exception. *)
Lemma loop_run {A : Type} (n : node) (aten : pyval) (items : dict)
    (s1 : state) (r : A) (run : state * result A) :
  run = match apply_all n items aten s1 with
        | (s2, Ok _) => (s2, Ok r)
        | (s2, Raise e) => (s2, Raise e)
        end ->
  (Forall (fun kv => attr_ok aten (fst kv) (snd kv)) items ->
   exists attrs : list event,
     run = (mkState (fresh s1) (trace s1 ++ attrs), Ok r) /\
     Forall2 (fun kv e => setter_call aten (node_id n) (fst kv) (snd kv) e)
             items attrs) /\
  (forall s' r', run = (s', Ok r') ->
     Forall (fun kv => attr_ok aten (fst kv) (snd kv)) items) /\
  (forall s' e, run = (s', Raise e) ->
     exists (applied : dict) (k : string) (v : pyval) (rest : dict)
            (attrs : list event),
       items = applied ++ (k, v) :: rest /\
       s' = mkState (fresh s1) (trace s1 ++ attrs) /\
       Forall2 (fun kv e => setter_call aten (node_id n) (fst kv) (snd kv) e)
               applied attrs /\
       attr_error aten k v e).
Proof.
  intros ->. split; [|split].
  - intros Hf. destruct (apply_all_run n aten items s1 Hf) as (evs & -> & Hs).
    exists evs. split; [reflexivity|exact Hs].
  - intros s' r' H.
    destruct (apply_all n items aten s1) as [s2 [u|e]] eqn:E; [|discriminate].
    apply apply_all_ok in E. destruct E as (evs & _ & Hs).
    exact (setter_calls_ok _ _ _ _ Hs).
  - intros s' e H.
    destruct (apply_all n items aten s1) as [s2 [u|e1]] eqn:E; [discriminate|].
    inversion H; subst s2 e1; clear H.
    exact (apply_all_raise _ _ _ _ _ _ E).
Qed.

Lemma graph_op_returns (g : nat) (opname : string) (raw : list pyval)
    (outputs : Z) (kwargs : dict) (s : state) :
  (contains_sep opname = true -> length (split_sep opname) = 2) ->
  no_reserved_key (not_None_items kwargs) ->
  Forall (fun kv => attr_ok (popped_aten (not_None_items kwargs))
                      (fst kv) (snd kv))
         (applied_items (not_None_items kwargs)) ->
  exists (args : list pyval) (evs1 attrs : list event) (n : nat),
    wrap_args g (fresh s) raw = (args, evs1, n) /\
    Forall2 (fun kv e =>
               setter_call (popped_aten (not_None_items kwargs)) n
                 (fst kv) (snd kv) e)
            (applied_items (not_None_items kwargs)) attrs /\
    graph_op g opname raw outputs kwargs s =
    (mkState (S n)
       (trace s ++ evs1 ++
        Create g n (op_kind opname) args outputs ::
        attrs ++ InsertNode g n :: infer_events n),
     Ok (op_result outputs (mkNode n (Z.to_nat outputs)))).
Proof.
  intros Hl Hr Hf. unfold graph_op. rewrite graph_op_unfold.
  destruct (wrap_args g (fresh s) raw) as [[args evs1] n] eqn:Ew.
  destruct (finish_returns g opname outputs args (not_None_items kwargs)
              (mkState n (trace s ++ evs1)) Hl Hr Hf) as (s' & r & H).
  destruct (finish_ok _ _ _ _ _ _ _ _ H) as (_ & _ & attrs & -> & -> & Hs).
  cbn [fresh trace] in *.
  exists args, evs1, attrs, n. split; [reflexivity|]. split; [exact Hs|].
  rewrite H. now rewrite <- app_assoc.
Qed.

(** C6.  A call of [graph_op] that meets the conditions under which the
    node is built (the operator name splits in two at its ["::"] or holds
    none, no attribute is named as a parameter of [_new_node], every
    applied attribute is one that [_add_attribute] accepts) returns, and
    its native calls are, in this order: the calls for the wrapped
    arguments, the creation of the node [n], its setters, its insertion in
    the graph, and then the inference pass on [n] with the parameters and
    the opset of [GLOBALS] when [GLOBALS.onnx_shape_inference] is true, and
    nothing when it is false.  For every call, returning or not: an
    inserted node is inferred if and only if the flag is true, the pass is
    run on inserted nodes only, and the node of a returned value is an
    inserted one. *)
Theorem shape_inference_iff_flag (g : nat) (opname : string)
    (raw : list pyval) (outputs : Z) (kwargs : dict) (s : state) :
  ((contains_sep opname = true -> length (split_sep opname) = 2) ->
   no_reserved_key (not_None_items kwargs) ->
   Forall (fun kv => attr_ok (popped_aten (not_None_items kwargs))
                       (fst kv) (snd kv))
          (applied_items (not_None_items kwargs)) ->
   exists (args : list pyval) (evs1 attrs : list event) (n : nat),
     wrap_args g (fresh s) raw = (args, evs1, n) /\
     Forall2 (fun kv e =>
                setter_call (popped_aten (not_None_items kwargs)) n
                  (fst kv) (snd kv) e)
             (applied_items (not_None_items kwargs)) attrs /\
     graph_op g opname raw outputs kwargs s =
     (mkState (S n)
        (trace s ++ evs1 ++
         Create g n (op_kind opname) args outputs ::
         attrs ++
         InsertNode g n ::
         (if onnx_shape_inference GLOBALS
          then [InferShape n (_params_dict GLOBALS)
                  (export_onnx_opset_version GLOBALS)]
          else [])),
      Ok (op_result outputs (mkNode n (Z.to_nat outputs))))) /\
  (forall (s' : state) (r : pyval),
     graph_op g opname raw outputs kwargs s = (s', Ok r) ->
     exists (args : list pyval) (evs1 attrs : list event) (n : nat),
       wrap_args g (fresh s) raw = (args, evs1, n) /\
       Forall (is_setter_of n) attrs /\
       trace s' =
         trace s ++ evs1 ++
         Create g n (op_kind opname) args outputs ::
         attrs ++
         InsertNode g n ::
         (if onnx_shape_inference GLOBALS
          then [InferShape n (_params_dict GLOBALS)
                  (export_onnx_opset_version GLOBALS)]
          else []) /\
       r = op_result outputs (mkNode n (Z.to_nat outputs))) /\
  (exists evs : list event,
     trace (fst (graph_op g opname raw outputs kwargs s)) = trace s ++ evs /\
     (forall m, In (InsertNode g m) evs ->
        (In (InferShape m (_params_dict GLOBALS)
               (export_onnx_opset_version GLOBALS)) evs <->
         onnx_shape_inference GLOBALS = true)) /\
     (forall m p o, In (InferShape m p o) evs ->
        onnx_shape_inference GLOBALS = true /\ In (InsertNode g m) evs) /\
     (forall r, snd (graph_op g opname raw outputs kwargs s) = Ok r ->
        exists n, r = op_result outputs n /\
                  In (InsertNode g (node_id n)) evs)).
Proof.
  split; [|split].
  - intros Hl Hr Hf.
    destruct (graph_op_returns g opname raw outputs kwargs s Hl Hr Hf)
      as (args & evs1 & attrs & n & Hw & Hs & H).
    exists args, evs1, attrs, n. split; [exact Hw|]. split; [exact Hs|].
    exact H.
  - intros s' r H. apply graph_op_ok in H.
    destruct H as (args & evs1 & attrs & n & Hw & -> & -> & Hs).
    exists args, evs1, attrs, n. split; [exact Hw|].
    split; [|split; reflexivity].
    clear Hw. induction Hs as [|kv e items attrs He Hs IH]; constructor;
      [|exact IH].
    destruct He as (name & kind & _ & He). unfold is_setter_of.
    destruct (caffe2_path _ _).
    + destruct He as (t & _ & _ & ->). eauto.
    + subst e. eauto.
  - destruct (graph_op_trace g opname raw outputs kwargs s)
      as (evs & Ht & [H1 H2] & Hr).
    exists evs. split; [exact Ht|]. split; [|split; [exact H2|exact Hr]].
    intros m Hin. split.
    + intros Hi. now destruct (H2 _ _ _ Hi).
    + now apply H1.
Qed.

(** C9.  [_new_node] and [block_op] apply the items [applied_items] and
    [block_items] of the keyword arguments: the items other than [inplace]
    (and [aten], where it is popped), sorted by key.  A call whose items
    are all accepted by [_add_attribute] returns, and its native calls are
    the creation of the node and then one setter for each item, in that
    sorted order; a call returns only then.  A call that raises has called
    the setters of the items before the first rejected one, in that order,
    and raises the error of that item.  An item [inplace] is no item of the
    loop, whatever its value: the call does exactly what the call without
    it does, so no setter is called for it and nothing is raised for it. *)
Theorem new_node_attributes_sorted :
  (forall (g : nat) (namespace op : string) (outputs : Z)
          (args : list pyval) (kwargs : dict),
     StronglySorted key_le (applied_items kwargs) /\
     Forall (fun kv => fst kv <> "inplace"%string) (applied_items kwargs) /\
     Permutation (applied_items kwargs)
       (dict_del "inplace" (snd (dict_pop "aten" (PBool false) kwargs))) /\
     (forall s : state,
        _new_node g namespace op outputs args kwargs s =
        (n <- create g (namespace ++ "::" ++ op)%string args outputs ;;
         apply_all n (applied_items kwargs) (popped_aten kwargs) ;;;
         ret n) s) /\
     (forall s : state,
        Forall (fun kv => attr_ok (popped_aten kwargs) (fst kv) (snd kv))
               (applied_items kwargs) ->
        exists attrs : list event,
          _new_node g namespace op outputs args kwargs s =
          (mkState (S (fresh s))
             (trace s ++
              Create g (fresh s) (namespace ++ "::" ++ op) args outputs ::
              attrs),
           Ok (mkNode (fresh s) (Z.to_nat outputs))) /\
          Forall2 (fun kv e =>
                     setter_call (popped_aten kwargs) (fresh s)
                       (fst kv) (snd kv) e)
                  (applied_items kwargs) attrs) /\
     (forall (s s' : state) (n : node),
        _new_node g namespace op outputs args kwargs s = (s', Ok n) ->
        Forall (fun kv => attr_ok (popped_aten kwargs) (fst kv) (snd kv))
               (applied_items kwargs)) /\
     (forall (s s' : state) (e : exn),
        _new_node g namespace op outputs args kwargs s = (s', Raise e) ->
        exists (applied : dict) (k : string) (v : pyval) (rest : dict)
               (attrs : list event),
          applied_items kwargs = applied ++ (k, v) :: rest /\
          s' = mkState (S (fresh s))
                 (trace s ++
                  Create g (fresh s) (namespace ++ "::" ++ op) args outputs ::
                  attrs) /\
          Forall2 (fun kv e =>
                     setter_call (popped_aten kwargs) (fresh s)
                       (fst kv) (snd kv) e)
                  applied attrs /\
          attr_error (popped_aten kwargs) k v e)) /\
  (forall (b : nat) (opname : string) (args : list pyval) (kwargs : dict),
     StronglySorted key_le (block_items opname kwargs) /\
     Forall (fun kv => fst kv <> "inplace"%string)
            (block_items opname kwargs) /\
     Permutation (block_items opname kwargs)
       (dict_del "inplace"
          (if contains_sep opname then kwargs
           else snd (dict_pop "aten" (PBool false) kwargs))) /\
     (forall s : state,
        block_op b opname args kwargs s =
        (n <- addNode b (block_kind opname kwargs) args ;;
         apply_all n (block_items opname kwargs)
           (block_aten opname kwargs) ;;;
         ret (block_result n)) s) /\
     (forall s : state,
        Forall (fun kv => attr_ok (block_aten opname kwargs)
                            (fst kv) (snd kv))
               (block_items opname kwargs) ->
        exists attrs : list event,
          block_op b opname args kwargs s =
          (mkState (S (fresh s))
             (trace s ++
              AddNode b (fresh s) (block_kind opname kwargs) args :: attrs),
           Ok (block_result (mkNode (fresh s) addNode_outputs))) /\
          Forall2 (fun kv e =>
                     setter_call (block_aten opname kwargs) (fresh s)
                       (fst kv) (snd kv) e)
                  (block_items opname kwargs) attrs) /\
     (forall (s s' : state) (r : pyval),
        block_op b opname args kwargs s = (s', Ok r) ->
        Forall (fun kv => attr_ok (block_aten opname kwargs)
                            (fst kv) (snd kv))
               (block_items opname kwargs)) /\
     (forall (s s' : state) (e : exn),
        block_op b opname args kwargs s = (s', Raise e) ->
        exists (applied : dict) (k : string) (v : pyval) (rest : dict)
               (attrs : list event),
          block_items opname kwargs = applied ++ (k, v) :: rest /\
          s' = mkState (S (fresh s))
                 (trace s ++
                  AddNode b (fresh s) (block_kind opname kwargs) args ::
                  attrs) /\
          Forall2 (fun kv e =>
                     setter_call (block_aten opname kwargs) (fresh s)
                       (fst kv) (snd kv) e)
                  applied attrs /\
          attr_error (block_aten opname kwargs) k v e)) /\
  (forall (v : pyval) (kw1 kw2 : dict),
     (forall (g : nat) (namespace op : string) (outputs : Z)
             (args : list pyval) (s : state),
        _new_node g namespace op outputs args
          (kw1 ++ ("inplace"%string, v) :: kw2) s =
        _new_node g namespace op outputs args (kw1 ++ kw2) s) /\
     (forall (b : nat) (opname : string) (args : list pyval) (s : state),
        block_op b opname args (kw1 ++ ("inplace"%string, v) :: kw2) s =
        block_op b opname args (kw1 ++ kw2) s)).
Proof.
  split; [|split].
  - intros g namespace op outputs args kwargs.
    destruct (sorted_inplace_items
                (snd (dict_pop "aten" (PBool false) kwargs)))
      as (H1 & H2 & H3).
    split; [exact H1|]. split; [exact H3|]. split; [exact H2|].
    assert (L := fun s =>
      @loop_run _ _ _ _ _ _ _
        (new_node_items g namespace op outputs args kwargs s)).
    cbn [fresh trace node_id] in L.
    split; [|split; [|split]].
    + intros s. rewrite new_node_items, !bind_run.
      cbv [create new_node_id emit ret bind]. cbn [fst snd fresh trace].
      destruct (apply_all _ _ _ _) as [s2 [u|e]]; reflexivity.
    + intros s Hf. destruct (proj1 (L s) Hf) as (attrs & Hrun & Hs).
      exists attrs. split; [|exact Hs].
      rewrite Hrun. now rewrite <- app_assoc.
    + intros s s' n H. exact (proj1 (proj2 (L s)) s' n H).
    + intros s s' e H.
      destruct (proj2 (proj2 (L s)) s' e H)
        as (applied & k & v & rest & attrs & Hi & -> & Hs & He).
      exists applied, k, v, rest, attrs. split; [exact Hi|].
      split; [now rewrite <- app_assoc|]. split; [exact Hs|exact He].
  - intros b opname args kwargs.
    assert (Hitems :
      StronglySorted key_le (block_items opname kwargs) /\
      Permutation (block_items opname kwargs)
        (dict_del "inplace"
           (if contains_sep opname then kwargs
            else snd (dict_pop "aten" (PBool false) kwargs))) /\
      Forall (fun kv => fst kv <> "inplace"%string)
             (block_items opname kwargs))
      by apply sorted_inplace_items.
    destruct Hitems as (H1 & H2 & H3).
    split; [exact H1|]. split; [exact H3|]. split; [exact H2|].
    assert (L := fun s =>
      @loop_run _ _ _ _ _ _ _ (block_op_items b opname args kwargs s)).
    cbn [fresh trace node_id] in L.
    split; [|split; [|split]].
    + intros s. rewrite block_op_items, bind_run, addNode_run, bind_run.
      destruct (apply_all _ _ _ _) as [s2 [u|e]]; reflexivity.
    + intros s Hf. destruct (proj1 (L s) Hf) as (attrs & Hrun & Hs).
      exists attrs. split; [|exact Hs].
      rewrite Hrun. now rewrite <- app_assoc.
    + intros s s' r H. exact (proj1 (proj2 (L s)) s' r H).
    + intros s s' e H.
      destruct (proj2 (proj2 (L s)) s' e H)
        as (applied & k & v & rest & attrs & Hi & -> & Hs & He).
      exists applied, k, v, rest, attrs. split; [exact Hi|].
      split; [now rewrite <- app_assoc|]. split; [exact Hs|exact He].
  - intros v kw1 kw2. split.
    + intros g namespace op outputs args s. rewrite !new_node_items.
      destruct (applied_items_inplace v kw1 kw2) as [-> ->]. reflexivity.
    + intros b opname args s. rewrite !block_op_items.
      destruct (block_items_inplace opname v kw1 kw2) as (-> & -> & ->).
      reflexivity.
Qed.

End TorchGraph.

(** * Instances *)

Lemma add_attribute_dispatch_witness :
  _add_attribute (ex_globals false false) ex_numel ex_getitem0 ex_truth
    (mkNode 0 1) "foo_i" (PInt 3) (PBool false) s0 =
  (mkState 0 [SetAttr 0 "i_" "foo" (PInt 3)], Ok (PNode (mkNode 0 1))).
Proof.
  apply (add_attribute_dispatch (ex_globals false false) ex_numel
           ex_getitem0 ex_truth (mkNode 0 1) "foo_i" "foo" "i"
           (PInt 3) (PBool false) s0); reflexivity.
Defined.

(** On the Caffe2 branch the value of the key [foo_t] goes to [i_], not
    to [t_]. *)
Lemma add_attribute_caffe2_counterexample :
  attr_match "foo_t" = Some ("foo", "t")%string /\
  _add_attribute (ex_globals false true) ex_numel ex_getitem0 ex_truth
    (mkNode 0 1) "foo_t" (PTensor (TensorRef 1)) (PBool true) s0 =
  (mkState 0 [SetAttr 0 "i_" "foo" (PTensor (TensorRef 1))],
   Ok (PNode (mkNode 0 1))) /\
  _add_attribute (ex_globals false true) ex_numel ex_getitem0 ex_truth
    (mkNode 0 1) "foo_t" (PTensor (TensorRef 1)) (PBool true) s0 <>
  (after_setter s0 (mkNode 0 1) "t_" "foo" (PTensor (TensorRef 1)),
   Ok (PNode (mkNode 0 1))).
Proof.
  split; [reflexivity|]. split; [reflexivity|]. discriminate.
Qed.


Lemma add_attribute_plural_witness :
  _add_attribute (ex_globals false false) ex_numel ex_getitem0 ex_truth
    (mkNode 0 1) "dims_i" (PList [PInt 1; PInt 2]) (PBool false) s0 =
  (mkState 0 [SetAttr 0 "is_" "dims" (PList [PInt 1; PInt 2])],
   Ok (PNode (mkNode 0 1))).
Proof.
  apply (add_attribute_plural (ex_globals false false) ex_numel
           ex_getitem0 ex_truth (mkNode 0 1) "dims_i" "dims" "i"
           (PList [PInt 1; PInt 2]) (PBool false) s0);
    reflexivity.
Defined.

(** On the Caffe2 branch a tensor given under [w_z] does not keep the type
    code [z]. *)
Lemma add_attribute_tensor_code_counterexample :
  attr_match "w_z" = Some ("w", "z")%string /\
  _is_onnx_list (PTensor (TensorRef 1)) = false /\
  _add_attribute (ex_globals false true) ex_numel ex_getitem0 ex_truth
    (mkNode 0 1) "w_z" (PTensor (TensorRef 1)) (PInt 1) s0 =
  (mkState 0 [SetAttr 0 "i_" "w" (PTensor (TensorRef 1))],
   Ok (PNode (mkNode 0 1))) /\
  _add_attribute (ex_globals false true) ex_numel ex_getitem0 ex_truth
    (mkNode 0 1) "w_z" (PTensor (TensorRef 1)) (PInt 1) s0 <>
  (after_setter s0 (mkNode 0 1) "z_" "w" (PTensor (TensorRef 1)),
   Ok (PNode (mkNode 0 1))).
Proof.
  split; [reflexivity|]. split; [reflexivity|]. split; [reflexivity|].
  discriminate.
Qed.

Lemma attr_pattern_keys_witness :
  _add_attribute (ex_globals false false) ex_numel ex_getitem0 ex_truth
    (mkNode 0 1) "axes_ty" (PInt 3) (PBool false) s0 =
  (mkState 0 [SetAttr 0 "ty_" "axes" (PInt 3)], Ok (PNode (mkNode 0 1))).
Proof.
  apply (proj2 (attr_pattern_keys (ex_globals false false) ex_numel
                  ex_getitem0 ex_truth)
           "axes"%string "ty"%string (mkNode 0 1) (PInt 3) (PBool false) s0);
    try reflexivity; try discriminate.
  simpl. auto.
Defined.

(** The key [a<newline>b_i] has the form [name_k] with a name that is not
    empty, and the pattern rejects it; the key [foo_i<newline>] is
    accepted. *)
Lemma attr_pattern_newline_counterexample :
  spec_key_form ("a" ++ nl ++ "b_i") /\
  attr_match ("a" ++ nl ++ "b_i") = None /\
  attr_match ("foo_i" ++ nl) = Some ("foo", "i")%string.
Proof.
  split; [|split; reflexivity].
  exists ("a" ++ nl ++ "b")%string, "i"%string.
  split; [discriminate|]. split; [|reflexivity].
  unfold type_codes. simpl. auto.
Qed.



Lemma graph_op_drops_None_witness :
  graph_op (ex_globals false false) ex_numel ex_getitem0 ex_truth
    0 "Add" [] 1 [("bad"%string, PNone); ("axis_i"%string, PInt 2)] s0 =
  graph_op (ex_globals false false) ex_numel ex_getitem0 ex_truth
    0 "Add" [] 1 ([] ++ [("axis_i"%string, PInt 2)]) s0.
Proof.
  apply (proj1 (proj2 (graph_op_drops_None (ex_globals false false) ex_numel
                         ex_getitem0 ex_truth 0 "Add"%string [] 1%Z
                         [("bad"%string, PNone); ("axis_i"%string, PInt 2)]
                         s0))
           "bad"%string [] [("axis_i"%string, PInt 2)]).
  reflexivity.
Defined.

(** The item [inplace] reaches no setter and the others are set in the
    order of their keys, [a_f] before [b_i], by [_new_node] and by
    [block_op]. *)
Lemma new_node_attributes_sorted_witness :
  _new_node (ex_globals false false) ex_numel ex_getitem0 ex_truth
    0 "onnx" "Foo" 1 [PValue 7 0]
    [("b_i"%string, PInt 1); ("inplace"%string, PStr "yes");
     ("a_f"%string, PFloat 3)] s0 =
  (mkState 1
     [Create 0 0 "onnx::Foo" [PValue 7 0] 1;
      SetAttr 0 "f_" "a" (PFloat 3); SetAttr 0 "i_" "b" (PInt 1)],
   Ok (mkNode 0 1)) /\
  block_op (ex_globals false false) ex_numel ex_getitem0 ex_truth 1
    3 "Foo" [PValue 7 0]
    [("b_i"%string, PInt 1); ("inplace"%string, PStr "yes");
     ("a_f"%string, PFloat 3)] s0 =
  (mkState 1
     [AddNode 3 0 "onnx::Foo" [PValue 7 0];
      SetAttr 0 "f_" "a" (PFloat 3); SetAttr 0 "i_" "b" (PInt 1)],
   Ok (PValue 0 0)).
Proof.
  assert (Hok : Forall (fun kv =>
                  attr_ok (ex_globals false false) ex_numel ex_truth
                    (PBool false) (fst kv) (snd kv))
                  [("a_f"%string, PFloat 3); ("b_i"%string, PInt 1)]).
  { repeat constructor; try (vm_compute; discriminate);
      intros H; vm_compute in H; discriminate H. }
  assert (Hattrs : forall attrs,
    Forall2 (fun kv e =>
               setter_call (ex_globals false false) ex_numel ex_getitem0
                 ex_truth (PBool false) 0 (fst kv) (snd kv) e)
            [("a_f"%string, PFloat 3); ("b_i"%string, PInt 1)] attrs ->
    attrs = [SetAttr 0 "f_" "a" (PFloat 3); SetAttr 0 "i_" "b" (PInt 1)]).
  { intros attrs Hs.
    inversion Hs as [|kv1 e1 l1 l1' Ha Hs1]; subst; clear Hs.
    inversion Hs1 as [|kv2 e2 l2 l2' Hb Hs2]; subst; clear Hs1.
    inversion Hs2; subst; clear Hs2.
    destruct Ha as (name1 & kind1 & Hm1 & He1).
    destruct Hb as (name2 & kind2 & Hm2 & He2).
    vm_compute in Hm1. vm_compute in Hm2.
    inversion Hm1; subst name1 kind1. inversion Hm2; subst name2 kind2.
    vm_compute in He1. vm_compute in He2. subst e1 e2. reflexivity. }
  split.
  - destruct (proj1 (proj2 (proj2 (proj2 (proj2
               (proj1 (new_node_attributes_sorted (ex_globals false false)
                         ex_numel ex_getitem0 ex_truth 1)
                  0 "onnx"%string "Foo"%string 1%Z [PValue 7 0]
                  [("b_i"%string, PInt 1); ("inplace"%string, PStr "yes");
                   ("a_f"%string, PFloat 3)]))))) s0 Hok)
      as (attrs & Hrun & Hs).
    rewrite (Hattrs attrs Hs) in Hrun. exact Hrun.
  - destruct (proj1 (proj2 (proj2 (proj2 (proj2
               (proj1 (proj2 (new_node_attributes_sorted
                                (ex_globals false false)
                                ex_numel ex_getitem0 ex_truth 1))
                  3 "Foo"%string [PValue 7 0]
                  [("b_i"%string, PInt 1); ("inplace"%string, PStr "yes");
                   ("a_f"%string, PFloat 3)]))))) s0 Hok)
      as (attrs & Hrun & Hs).
    rewrite (Hattrs attrs Hs) in Hrun. exact Hrun.
Defined.

(** The same call with the flag set and unset: the inference pass follows
    each insertion in the first run and is absent from the second. *)
Lemma shape_inference_iff_flag_witness :
  graph_op (ex_globals true false) ex_numel ex_getitem0 ex_truth
    0 "Relu" [PInt 1] 1 [] s0 =
  (mkState 2
     [Create 0 0 "onnx::Constant" [] 1; SetAttr 0 "z_" "value" (PInt 1);
      InsertNode 0 0; InferShape 0 [] 13;
      Create 0 1 "onnx::Relu" [PValue 0 0] 1; InsertNode 0 1;
      InferShape 1 [] 13],
   Ok (PValue 1 0)) /\
  graph_op (ex_globals false false) ex_numel ex_getitem0 ex_truth
    0 "Relu" [PInt 1] 1 [] s0 =
  (mkState 2
     [Create 0 0 "onnx::Constant" [] 1; SetAttr 0 "z_" "value" (PInt 1);
      InsertNode 0 0;
      Create 0 1 "onnx::Relu" [PValue 0 0] 1; InsertNode 0 1],
   Ok (PValue 1 0)).
Proof.
  split.
  - destruct (proj1 (shape_inference_iff_flag (ex_globals true false)
                       ex_numel ex_getitem0 ex_truth 0 "Relu"%string
                       [PInt 1] 1%Z [] s0))
      as (args & evs1 & attrs & n & Hw & Hs & Hrun).
    + intros H. vm_compute in H. discriminate H.
    + repeat split.
    + constructor.
    + apply triple_inj in Hw. destruct Hw as (<- & <- & <-).
      inversion Hs; subst attrs. exact Hrun.
  - destruct (proj1 (shape_inference_iff_flag (ex_globals false false)
                       ex_numel ex_getitem0 ex_truth 0 "Relu"%string
                       [PInt 1] 1%Z [] s0))
      as (args & evs1 & attrs & n & Hw & Hs & Hrun).
    + intros H. vm_compute in H. discriminate H.
    + repeat split.
    + constructor.
    + apply triple_inj in Hw. destruct Hw as (<- & <- & <-).
      inversion Hs; subst attrs. exact Hrun.
Defined.

Lemma graph_op_None_input_witness :
  graph_op (ex_globals true false) ex_numel ex_getitem0 ex_truth
    0 "Resize" (repeat PNone 2) 1 [] s0 =
  (mkState 1
     [Create 0 0 "onnx::Resize" [PNone; PNone] 1; InsertNode 0 0;
      InferShape 0 [] 13],
   Ok (PValue 0 0)).
Proof.
  apply (proj2 (proj2 (graph_op_None_input (ex_globals true false) ex_numel
                         ex_getitem0 ex_truth))
           0 "Resize"%string 2 1%Z s0).
  reflexivity.
Defined.



(** ** Sample runs *)

Example add_attribute_suffix_samples :
  let run key v :=
    trace (fst (_add_attribute (ex_globals false false) ex_numel
                  ex_getitem0 ex_truth (mkNode 0 1) key v (PBool false) s0))
  in
  run "foo_i"%string (PInt 1) = [SetAttr 0 "i_" "foo" (PInt 1)] /\
  run "foo_f"%string (PFloat 5) = [SetAttr 0 "f_" "foo" (PFloat 5)] /\
  run "foo_s"%string (PStr "a") = [SetAttr 0 "s_" "foo" (PStr "a")] /\
  run "foo_t"%string (PTensor (TensorRef 6)) =
    [SetAttr 0 "t_" "foo" (PTensor (TensorRef 6))] /\
  run "foo_z"%string (PTensor (TensorRef 6)) =
    [SetAttr 0 "z_" "foo" (PTensor (TensorRef 6))] /\
  run "foo_i"%string (PTuple [PInt 1; PInt 2]) =
    [SetAttr 0 "is_" "foo" (PTuple [PInt 1; PInt 2])].
Proof. repeat split. Qed.

Example graph_op_sample :
  graph_op (ex_globals true false) ex_numel ex_getitem0 ex_truth
    0 "aten::add" [PValue 5 0; PInt 2; PNone] 2
    [("b_i"%string, PInt 1); ("inplace"%string, PBool true);
     ("x_s"%string, PNone); ("a_f"%string, PFloat 3)] s0 =
  (mkState 2
     [Create 0 0 "onnx::Constant" [] 1; SetAttr 0 "z_" "value" (PInt 2);
      InsertNode 0 0; InferShape 0 [] 13;
      Create 0 1 "aten::add" [PValue 5 0; PValue 0 0; PNone] 2;
      SetAttr 1 "f_" "a" (PFloat 3); SetAttr 1 "i_" "b" (PInt 1);
      InsertNode 0 1; InferShape 1 [] 13],
   Ok (PTuple [PValue 1 0; PValue 1 1])).
Proof. reflexivity. Qed.

Example graph_op_unpack_sample :
  graph_op (ex_globals false false) ex_numel ex_getitem0 ex_truth
    0 "a::b::c" [] 1 [] s0 =
  (s0, Raise (ValueError unpack_msg)).
Proof. reflexivity. Qed.

Example block_op_sample :
  block_op (ex_globals false false) ex_numel ex_getitem0 ex_truth 1
    3 "Gemm" [PValue 5 0]
    [("transB_i"%string, PInt 1); ("inplace"%string, PStr "yes");
     ("alpha_f"%string, PFloat 7)] s0 =
  (mkState 1
     [AddNode 3 0 "onnx::Gemm" [PValue 5 0];
      SetAttr 0 "f_" "alpha" (PFloat 7); SetAttr 0 "i_" "transB" (PInt 1)],
   Ok (PValue 0 0)).
Proof. reflexivity. Qed.

Example block_op_aten_key_sample :
  block_op (ex_globals false false) ex_numel ex_getitem0 ex_truth 1
    3 "aten::relu" [] [("aten"%string, PBool true)] s0 =
  (mkState 1 [AddNode 3 0 "aten::relu" []],
   Raise (ValueError (invalid_attribute_msg "aten"))).
Proof. reflexivity. Qed.

Example graph_constant_sample :
  graph_constant (ex_globals false false) ex_numel ex_getitem0 ex_truth
    ex_new_tensor ex_fill 0 (PInt 3) (DimsList [0%Z]) (Some "Float"%string)
    [] [] s0 =
  (mkState 1
     [Create 0 0 "onnx::Constant" [] 1;
      SetAttr 0 "z_" "value" (PTensor (TensorRef 1)); InsertNode 0 0],
   Ok (PValue 0 0)).
Proof. reflexivity. Qed.

Example graph_constant_unknown_type_sample :
  graph_constant (ex_globals false false) ex_numel ex_getitem0 ex_truth
    ex_new_tensor ex_fill 0 (PInt 3) DimsNone (Some "bool"%string)
    [] [] s0 =
  (s0, Raise (ValueError unknown_type_msg)).
Proof. reflexivity. Qed.

(** ** Instances of the further properties *)

Lemma graph_op_result_witness :
  fresh (mkState 2
           [Create 0 0 "onnx::Constant" [] 1;
            SetAttr 0 "z_" "value" (PInt 4); InsertNode 0 0;
            Create 0 1 "onnx::Split" [PValue 9 0; PValue 0 0] 3;
            InsertNode 0 1]) = 2 /\
  In (InsertNode 0 1)
     [Create 0 0 "onnx::Constant" [] 1;
      SetAttr 0 "z_" "value" (PInt 4); InsertNode 0 0;
      Create 0 1 "onnx::Split" [PValue 9 0; PValue 0 0] 3;
      InsertNode 0 1] /\
  (3%Z = 1%Z -> PTuple [PValue 1 0; PValue 1 1; PValue 1 2] = PValue 1 0) /\
  (3%Z <> 1%Z ->
   PTuple [PValue 1 0; PValue 1 1; PValue 1 2] =
   PTuple (map (PValue 1) (seq 0 (Z.to_nat 3)))).
Proof.
  apply (graph_op_result (ex_globals false false) ex_numel ex_getitem0
           ex_truth 0 "Split"%string [PValue 9 0; PInt 4] 3%Z [] s0
           (mkState 2
              [Create 0 0 "onnx::Constant" [] 1;
               SetAttr 0 "z_" "value" (PInt 4); InsertNode 0 0;
               Create 0 1 "onnx::Split" [PValue 9 0; PValue 0 0] 3;
               InsertNode 0 1])
           (PTuple [PValue 1 0; PValue 1 1; PValue 1 2])).
  reflexivity.
Defined.

Lemma graph_op_calls_witness :
  exists (args : list pyval) (evs1 attrs : list event) (n : nat),
    wrap_args (ex_globals true false) 0 (fresh s0) [PInt 4] =
      (args, evs1, n) /\
    [Create 0 0 "onnx::Constant" [] 1; SetAttr 0 "z_" "value" (PInt 4);
     InsertNode 0 0; InferShape 0 [] 13;
     Create 0 1 "aten::add" [PValue 0 0] 1;
     SetAttr 1 "f_" "alpha" (PFloat 5); SetAttr 1 "is_" "dims" (PList []);
     InsertNode 0 1; InferShape 1 [] 13] =
    trace s0 ++ evs1 ++
    Create 0 n "aten::add" args 1 ::
    attrs ++ InsertNode 0 n :: infer_events (ex_globals true false) n /\
    Forall2 (fun kv e =>
               setter_call (ex_globals true false) ex_numel ex_getitem0
                 ex_truth
                 (popped_aten
                    (not_None_items
                       [("dims_i"%string, PList []);
                        ("alpha_f"%string, PFloat 5)]))
                 n (fst kv) (snd kv) e)
            (applied_items
               (not_None_items
                  [("dims_i"%string, PList []);
                   ("alpha_f"%string, PFloat 5)]))
            attrs /\
    StronglySorted key_le
      (applied_items
         (not_None_items
            [("dims_i"%string, PList []); ("alpha_f"%string, PFloat 5)])) /\
    Forall is_input args.
Proof.
  apply (graph_op_calls (ex_globals true false) ex_numel ex_getitem0
           ex_truth 0 "aten::add"%string [PInt 4] 1%Z
           [("dims_i"%string, PList []); ("alpha_f"%string, PFloat 5)] s0
           (mkState 2
              [Create 0 0 "onnx::Constant" [] 1;
               SetAttr 0 "z_" "value" (PInt 4);
               InsertNode 0 0; InferShape 0 [] 13;
               Create 0 1 "aten::add" [PValue 0 0] 1;
               SetAttr 1 "f_" "alpha" (PFloat 5);
               SetAttr 1 "is_" "dims" (PList []);
               InsertNode 0 1; InferShape 1 [] 13])
           (PValue 1 0)).
  reflexivity.
Defined.

Lemma graph_op_failure_witness :
  ValueError (invalid_attribute_msg "axis") <> RecursionError /\
  exists (args : list pyval) (evs1 rest : list event) (n : nat),
    wrap_args (ex_globals false false) 0 (fresh s0) [PInt 4] =
      (args, evs1, n) /\
    [Create 0 0 "onnx::Constant" [] 1; SetAttr 0 "z_" "value" (PInt 4);
     InsertNode 0 0; Create 0 1 "onnx::Add" [PValue 0 0] 1] =
    trace s0 ++ evs1 ++ rest /\
    (forall g' m, ~ In (InsertNode g' m) rest) /\
    (forall m p o, ~ In (InferShape m p o) rest).
Proof.
  apply (graph_op_failure (ex_globals false false) ex_numel ex_getitem0
           ex_truth 0 "Add"%string [PInt 4] 1%Z
           [("axis"%string, PInt 1)] s0
           (mkState 2
              [Create 0 0 "onnx::Constant" [] 1;
               SetAttr 0 "z_" "value" (PInt 4); InsertNode 0 0;
               Create 0 1 "onnx::Add" [PValue 0 0] 1])).
  reflexivity.
Defined.

Lemma add_attribute_caffe2_branch_witness :
  ((1 < ex_numel (TensorRef 1))%Z ->
   _add_attribute (ex_globals false true) ex_numel ex_getitem0 ex_truth
     (mkNode 0 1) "w_t" (PTensor (TensorRef 1)) (PBool true) s0 =
   (s0, Raise (ValueError tensor_attribute_msg))) /\
  (ex_numel (TensorRef 1) = 1%Z ->
   _add_attribute (ex_globals false true) ex_numel ex_getitem0 ex_truth
     (mkNode 0 1) "w_t" (PTensor (TensorRef 1)) (PBool true) s0 =
   (after_setter s0 (mkNode 0 1)
      (if is_float (ex_getitem0 (TensorRef 1)) then "f_" else "i_") "w"
      (ex_getitem0 (TensorRef 1)),
    Ok (PNode (mkNode 0 1)))) /\
  ((ex_numel (TensorRef 1) < 1)%Z ->
   _add_attribute (ex_globals false true) ex_numel ex_getitem0 ex_truth
     (mkNode 0 1) "w_t" (PTensor (TensorRef 1)) (PBool true) s0 =
   (s0, Raise AssertionError)).
Proof.
  apply (add_attribute_caffe2_branch (ex_globals false true) ex_numel ex_getitem0
           ex_truth (mkNode 0 1) "w_t"%string "w"%string "t"%string
           (TensorRef 1) (PBool true) s0); reflexivity.
Defined.

Lemma add_attribute_one_setter_witness :
  exists (setter name : string) (v : pyval),
    mkState 0 [SetAttr 0 "fs_" "scales" (PTuple [PFloat 1])] =
    after_setter s0 (mkNode 0 1) setter name v /\
    In setter setter_names /\ name <> EmptyString /\
    (caffe2_path (ex_globals false false) ex_truth (PBool false)
       (PTuple [PFloat 1]) = false -> v = PTuple [PFloat 1]) /\
    PNode (mkNode 0 1) = PNode (mkNode 0 1).
Proof.
  apply (add_attribute_one_setter (ex_globals false false) ex_numel
           ex_getitem0 ex_truth (mkNode 0 1) "scales_f"%string
           (PTuple [PFloat 1]) (PBool false) s0).
  reflexivity.
Defined.

Lemma plural_suffix_rejected_witness :
  attr_match ("dims" ++ "_" ++ "is") = None /\
  forall (n : node) (value aten : pyval) (s : state),
    _add_attribute (ex_globals false false) ex_numel ex_getitem0 ex_truth
      n ("dims" ++ "_" ++ "is") value aten s =
    (s, Raise (ValueError (invalid_attribute_msg ("dims" ++ "_" ++ "is")))).
Proof.
  apply (plural_suffix_rejected (ex_globals false false) ex_numel
           ex_getitem0 ex_truth "dims"%string "is"%string).
  unfold plural_codes, type_codes. cbn. auto.
Defined.

Lemma aten_op_node_witness :
  exists (n : nat) (inputs : list pyval) (outputs : Z),
    In (Create 0 n "aten::ATen" inputs outputs)
       [Create 0 0 "aten::ATen" [PValue 3 0] 1;
        SetAttr 0 "s_" "operator" (PStr "relu");
        SetAttr 0 "s_" "overload_name" (PStr EmptyString);
        InsertNode 0 0] /\
    In (SetAttr n "s_" "operator" (PStr "relu"))
       [Create 0 0 "aten::ATen" [PValue 3 0] 1;
        SetAttr 0 "s_" "operator" (PStr "relu");
        SetAttr 0 "s_" "overload_name" (PStr EmptyString);
        InsertNode 0 0] /\
    In (SetAttr n "s_" "overload_name" (PStr EmptyString))
       [Create 0 0 "aten::ATen" [PValue 3 0] 1;
        SetAttr 0 "s_" "operator" (PStr "relu");
        SetAttr 0 "s_" "overload_name" (PStr EmptyString);
        InsertNode 0 0] /\
    PValue 0 0 = op_result outputs (mkNode n (Z.to_nat outputs)) /\
    dict_mem "operator_s" [] = false /\
    dict_mem "overload_name_s" [] = false.
Proof.
  apply (proj1 (aten_op_node (ex_globals false false) ex_numel ex_getitem0
                  ex_truth)
           0 "relu"%string [PValue 3 0] EmptyString [] s0
           (mkState 1
              [Create 0 0 "aten::ATen" [PValue 3 0] 1;
               SetAttr 0 "s_" "operator" (PStr "relu");
               SetAttr 0 "s_" "overload_name" (PStr EmptyString);
               InsertNode 0 0])
           (PValue 0 0)).
  reflexivity.
Defined.

Lemma block_op_calls_witness :
  exists attrs : list event,
    fresh (mkState 1
             [AddNode 3 0 "aten::Gemm" [PValue 5 0];
              SetAttr 0 "i_" "transB" (PInt 1)]) = S (fresh s0) /\
    [AddNode 3 0 "aten::Gemm" [PValue 5 0];
     SetAttr 0 "i_" "transB" (PInt 1)] =
    trace s0 ++
    AddNode 3 (fresh s0)
      (block_kind ex_truth "Gemm"
         [("transB_i"%string, PInt 1); ("aten"%string, PBool true)])
      [PValue 5 0] :: attrs /\
    Forall2 (fun kv e =>
               setter_call (ex_globals false false) ex_numel ex_getitem0
                 ex_truth
                 (block_aten "Gemm"
                    [("transB_i"%string, PInt 1);
                     ("aten"%string, PBool true)])
                 (fresh s0) (fst kv) (snd kv) e)
            (block_items "Gemm"
               [("transB_i"%string, PInt 1); ("aten"%string, PBool true)])
            attrs /\
    StronglySorted key_le
      (block_items "Gemm"
         [("transB_i"%string, PInt 1); ("aten"%string, PBool true)]) /\
    (2 = 1 -> PTuple [PValue 0 0; PValue 0 1] = PValue (fresh s0) 0) /\
    (2 <> 1 ->
     PTuple [PValue 0 0; PValue 0 1] =
     PTuple (map (PValue (fresh s0)) (seq 0 2))).
Proof.
  apply (block_op_calls (ex_globals false false) ex_numel ex_getitem0
           ex_truth 2 3 "Gemm"%string [PValue 5 0]
           [("transB_i"%string, PInt 1); ("aten"%string, PBool true)] s0
           (mkState 1
              [AddNode 3 0 "aten::Gemm" [PValue 5 0];
               SetAttr 0 "i_" "transB" (PInt 1)])
           (PTuple [PValue 0 0; PValue 0 1])).
  reflexivity.
Defined.

Lemma block_op_keeps_None_witness :
  exists name kind : string,
    attr_match "axis_i" = Some (name, kind) /\
    In (SetAttr (fresh s0) (kind ++ "_") name PNone)
       [AddNode 3 0 "onnx::Squeeze" []; SetAttr 0 "i_" "axis" PNone].
Proof.
  apply (block_op_keeps_None (ex_globals false false) ex_numel ex_getitem0
           ex_truth 1 3 "Squeeze"%string [] [("axis_i"%string, PNone)] s0
           (mkState 1
              [AddNode 3 0 "onnx::Squeeze" []; SetAttr 0 "i_" "axis" PNone])
           (PValue 0 0) "axis_i"%string).
  - reflexivity.
  - now left.
  - discriminate.
  - intros _. discriminate.
Defined.

Lemma block_op_qualified_aten_witness :
  exists s' e,
    block_op (ex_globals false false) ex_numel ex_getitem0 ex_truth 1 3
      "aten::relu" [] [("aten"%string, PBool true)] s0 = (s', Raise e).
Proof.
  apply (block_op_qualified_aten (ex_globals false false) ex_numel
           ex_getitem0 ex_truth 1 3 "aten::relu"%string []
           [("aten"%string, PBool true)] s0); reflexivity.
Defined.

Lemma graph_constant_node_witness :
  graph_constant (ex_globals false false) ex_numel ex_getitem0 ex_truth
    ex_new_tensor ex_fill 0 (PFloat 9) (DimsList [2%Z; 3%Z])
    (Some "DOUBLE"%string) [] [] s0 =
  (mkState 1
     [Create 0 0 "onnx::Constant" [] 1;
      SetAttr 0 "t_" "value" (PTensor (TensorRef 6)); InsertNode 0 0],
   Ok (PValue 0 0)).
Proof.
  apply (proj2 (graph_constant_node (ex_globals false false) ex_numel
                  ex_getitem0 ex_truth ex_new_tensor ex_fill 0 (PFloat 9)
                  (DimsList [2%Z; 3%Z]) "DOUBLE"%string
                  "DoubleTensor"%string [] s0 eq_refl eq_refl eq_refl)).
Defined.


Lemma graph_op_opname_parts_witness :
  graph_op (ex_globals false false) ex_numel ex_getitem0 ex_truth
    0 "a::b::c" [PInt 4] 1 [("bad"%string, PInt 1)] s0 =
  (mkState 1
     [Create 0 0 "onnx::Constant" [] 1; SetAttr 0 "z_" "value" (PInt 4);
      InsertNode 0 0],
   Raise (ValueError unpack_msg)).
Proof.
  apply (graph_op_opname_parts (ex_globals false false) ex_numel
           ex_getitem0 ex_truth 0 "a::b::c"%string [PInt 4] 1%Z
           [("bad"%string, PInt 1)] s0).
  cbn. lia.
Defined.
